(** * zfs-list-gtk: the data pipeline of [zfs-list-gtk.py]

    A shallow embedding of the script's pure core: [human_readable],
    [parse_zfs_list_output], the row/tree construction of [build_treestore],
    the expansion bookkeeping of [Gui.refresh_tree] and the property-list
    normalisation of the [__main__] block.

    Python values are modelled as the script uses them: [str] as [string]
    (the text is taken to be ASCII), [int] as [Z], [float] as an IEEE-754
    binary64 value ([spec_float] at precision 53, emax 1024), a [dict] with
    string keys as [gmap string string], uncaught exceptions and [sys.exit]
    as the two failure cases of [outcome]. *)

From Stdlib Require Import ZArith Ascii String List Lia.
From Stdlib Require Import DecimalString DecimalPos DecimalN DecimalZ.
From Stdlib Require Import SpecFloat.
From stdpp Require Import base option list strings gmap.

Local Open Scope Z_scope.

(** ** Outcomes of a Python computation *)

Inductive exn :=
  | IndexError
  | KeyError
  | ValueError
  | TypeError
  | OverflowError
  | UnboundLocalError
  | UnicodeDecodeError.

Inductive outcome (A : Type) :=
  | Ok (a : A)
  | Raise (e : exn)
  | SysExit (msg : string).

Arguments Ok {A} a.
Arguments Raise {A} e.
Arguments SysExit {A} msg.

Definition bind {A B} (m : outcome A) (k : A -> outcome B) : outcome B :=
  match m with
  | Ok a => k a
  | Raise e => Raise e
  | SysExit msg => SysExit msg
  end.

Notation "'do' x <- m ; k" := (bind m (fun x => k))
  (at level 10, x pattern, m at level 100, k at level 200).

Definition returns {A} (m : outcome A) : bool :=
  match m with Ok _ => true | _ => false end.

#[global] Instance exn_eq_dec : EqDecision exn.
Proof. solve_decision. Defined.

(** ** Strings *)

(** [s.split(sep)] for a one-character separator: never the empty list. *)
Fixpoint str_split (sep : ascii) (s : string) : list string :=
  match s with
  | EmptyString => [EmptyString]
  | String c s' =>
      if Ascii.eqb c sep then EmptyString :: str_split sep s'
      else match str_split sep s' with
           | [] => [String c EmptyString]
           | w :: ws => String c w :: ws
           end
  end.

(** [sep.join(l)] *)
Definition join (sep : string) (l : list string) : string := String.concat sep l.

Definition tab : ascii := Ascii.ascii_of_nat 9.
Definition newline : ascii := Ascii.ascii_of_nat 10.
Definition comma : ascii := ","%char.

(** [str(n)] for an [int]. *)
Definition str_of_int (n : Z) : string := NilZero.string_of_int (Z.to_int n).

(** Whitespace that [int()] strips from both ends (ASCII part). *)
Definition is_space (c : ascii) : bool :=
  let n := N_of_ascii c in
  ((9 <=? n) && (n <=? 13) || (28 <=? n) && (n <=? 32))%N.

Fixpoint lstrip (s : string) : string :=
  match s with
  | EmptyString => EmptyString
  | String c s' => if is_space c then lstrip s' else s
  end.

Fixpoint rstrip (s : string) : string :=
  match s with
  | EmptyString => EmptyString
  | String c s' =>
      match rstrip s' with
      | EmptyString => if is_space c then EmptyString else String c EmptyString
      | r => String c r
      end
  end.

Definition strip (s : string) : string := rstrip (lstrip s).

Definition digit_of (c : ascii) : option (Decimal.uint -> Decimal.uint) :=
  match c with
  | "0" => Some Decimal.D0 | "1" => Some Decimal.D1 | "2" => Some Decimal.D2
  | "3" => Some Decimal.D3 | "4" => Some Decimal.D4 | "5" => Some Decimal.D5
  | "6" => Some Decimal.D6 | "7" => Some Decimal.D7 | "8" => Some Decimal.D8
  | "9" => Some Decimal.D9 | _ => None
  end%char.

(** Digits of an integer literal: decimal digits, single underscores allowed
    between two digits.  [after_digit] tells whether the previous character
    was a digit. *)
Fixpoint int_digits (s : string) (after_digit : bool) : option Decimal.uint :=
  match s with
  | EmptyString => if after_digit then Some Decimal.Nil else None
  | String c s' =>
      if Ascii.eqb c "_"%char then
        if after_digit then int_digits s' false else None
      else
        match digit_of c with
        | Some d => d <$> int_digits s' true
        | None => None
        end
  end.

(** [int(s)] in base 10: surrounding whitespace, an optional sign, digits.
    (The limit CPython 3.11 puts on the number of digits is not modelled.) *)
Definition py_int (s : string) : outcome Z :=
  let body := strip s in
  let '(neg, ds) :=
    match body with
    | String "-"%char r => (true, r)
    | String "+"%char r => (false, r)
    | _ => (false, body)
    end in
  match int_digits ds false with
  | Some u => let v := Z.of_N (N.of_uint u) in Ok (if neg then - v else v)
  | None => Raise ValueError
  end.

(** ** Floats *)

Abbreviation float := spec_float.

Definition prec : Z := 53.
Definition emax : Z := 1024.

(** The binary64 value nearest to the integer [n] (ties to even); an
    infinity when [n] is out of range. *)
Definition nearest_float (n : Z) : float := binary_normalize prec emax n 0 false.

(** [float(n)] for an [int], also the implicit conversion of [n / 1024.0]:
    raises [OverflowError] instead of producing an infinity. *)
Definition float_of_int (n : Z) : outcome float :=
  match nearest_float n with
  | S754_infinity _ => Raise OverflowError
  | f => Ok f
  end.

(** [float(s)] on the strings the script passes to it.  Every call
    [float(fs[prop])] comes after [int(fs[prop])] has accepted the same
    string; on such a string the result is the correctly rounded value of
    the integer, an infinity (not an exception) when out of range.  Other
    float literals never reach this function in the script. *)
Definition py_float (s : string) : outcome float :=
  do n <- py_int s; Ok (nearest_float n).

Definition float_div (x y : float) : float := SFdiv prec emax x y.
Definition float_abs (x : float) : float := SFabs x.
Definition float_ltb (x y : float) : bool := SFltb x y.

(** Round-half-even of [num / den] for [den > 0]. *)
Definition round_half_even (num den : Z) : Z :=
  let q := num / den in
  let r := num mod den in
  match Z.compare (2 * r) den with
  | Lt => q
  | Gt => q + 1
  | Eq => if Z.even q then q else q + 1
  end.

Fixpoint pad_zeros (width : nat) (s : string) : string :=
  match width with
  | O => s
  | S w => if (String.length s <? width)%nat then String "0" (pad_zeros w s) else s
  end.

(** The digits of a non-negative magnitude [m * 2^e] in fixed notation with
    [d] decimals, correctly rounded (ties to even on the exact value). *)
Definition fixed_digits (d : nat) (m : positive) (e : Z) : string :=
  let scale := 10 ^ Z.of_nat d in
  let r := if 0 <=? e then Z.pos m * 2 ^ e * scale
           else round_half_even (Z.pos m * scale) (2 ^ (- e)) in
  str_of_int (r / scale) +:+ "." +:+ pad_zeros d (str_of_int (r mod scale)).

(** ['{:.df}'.format(x)] for a float [x]. *)
Definition format_fixed (d : nat) (x : float) : string :=
  match x with
  | S754_zero s => (if s then "-" else "") +:+ "0." +:+ pad_zeros d ""
  | S754_infinity s => (if s then "-inf" else "inf")
  | S754_nan => "nan"
  | S754_finite s m e => (if s then "-" else "") +:+ fixed_digits d m e
  end.

(** ** [human_readable] *)

(** The variable [num] of [human_readable]: the [int] argument on entry, a
    [float] after the first division. *)
Inductive pynum :=
  | PInt (z : Z)
  | PFloat (f : float).

Definition num_abs (x : pynum) : pynum :=
  match x with
  | PInt z => PInt (Z.abs z)
  | PFloat f => PFloat (float_abs f)
  end.

(** [x < c] for a float literal of integer value [c] ([10.0], [1000.0],
    [1024.0]); Python compares an [int] with a [float] exactly. *)
Definition num_ltb (x : pynum) (c : Z) : bool :=
  match x with
  | PInt z => z <? c
  | PFloat f => float_ltb f (nearest_float c)
  end.

Definition num_to_float (x : pynum) : outcome float :=
  match x with
  | PInt z => float_of_int z
  | PFloat f => Ok f
  end.

(** [x / c] for a float literal of integer value [c]. *)
Definition num_div (x : pynum) (c : Z) : outcome pynum :=
  do f <- num_to_float x; Ok (PFloat (float_div f (nearest_float c))).

(** ['{:.df}'.format(x)] *)
Definition num_format_fixed (d : nat) (x : pynum) : outcome string :=
  do f <- num_to_float x; Ok (format_fixed d f).

(** The [for unit in units] loop followed by the final [return]; [sep] is
    the text between the number and the unit in the format strings. *)
Fixpoint scale_loop (base : Z) (sep : string) (units : list string)
    (last : string) (num : pynum) : outcome string :=
  match units with
  | [] => do s <- num_format_fixed 1 num; Ok (s +:+ sep +:+ last)
  | unit :: units' =>
      if num_ltb (num_abs num) 10 then
        do s <- num_format_fixed 2 num; Ok (s +:+ sep +:+ unit)
      else if num_ltb (num_abs num) base then
        do s <- num_format_fixed 1 num; Ok (s +:+ sep +:+ unit)
      else
        do num' <- num_div num base; scale_loop base sep units' last num'
  end.

Definition binary_units : list string :=
  ["B"; "K"; "M"; "G"; "T"; "P"; "E"; "Z"].
Definition decimal_units : list string :=
  ["B"; "KB"; "MB"; "GB"; "TB"; "PB"; "EB"; "ZB"].

Definition human_readable (num : Z) (binary : bool) : outcome string :=
  if binary then
    if Z.abs num <? 1024 then Ok (str_of_int num +:+ "B")
    else scale_loop 1024 "" binary_units "YiB" (PInt num)
  else
    if Z.abs num <? 1000 then Ok (str_of_int num +:+ " B")
    else scale_loop 1000 " " decimal_units "YB" (PInt num).

(** ** [parse_zfs_list_output] *)

Abbreviation dict := (gmap string string).

(** [d[k]] *)
Definition getitem (d : dict) (k : string) : outcome string :=
  match d !! k with
  | Some v => Ok v
  | None => Raise KeyError
  end.

(** [for i, prop in enumerate(props): current_fs_props[prop] = line[i]],
    from index [i] on. *)
Fixpoint fill_props (line : list string) (i : nat) (props : list string)
    (current_fs_props : dict) : outcome dict :=
  match props with
  | [] => Ok current_fs_props
  | prop :: props' =>
      match line !! i with
      | Some v => fill_props line (S i) props' (<[prop := v]> current_fs_props)
      | None => Raise IndexError
      end
  end.

Fixpoint parse_zfs_list_output (lines : list string) (props : list string)
    : outcome (list dict) :=
  match lines with
  | [] => Ok []
  | line :: lines' =>
      if bool_decide (line = "") then parse_zfs_list_output lines' props
      else
        do current_fs_props <- fill_props (str_split tab line) 0 props ∅;
        do filesystems <- parse_zfs_list_output lines' props;
        Ok (current_fs_props :: filesystems)
  end.

(** ** [Gtk.TreeStore] *)

Inductive coltype := ColStr | ColFloat.

(** A Python value put into a row, and the value a column holds. *)
Inductive pyval :=
  | VStr (s : string)
  | VInt (z : Z)
  | VFloat (f : float).

Inductive gvalue :=
  | GStr (s : string)
  | GDouble (f : float).

#[global] Instance float_eq_dec : EqDecision float.
Proof. solve_decision. Defined.

#[global] Instance gvalue_eq_dec : EqDecision gvalue.
Proof. solve_decision. Defined.

#[warnings="-register-all"]
Inductive TreeNode := Node (row : list gvalue) (children : list TreeNode).

Definition node_row (n : TreeNode) : list gvalue := let 'Node r _ := n in r.
Definition node_children (n : TreeNode) : list TreeNode := let 'Node _ c := n in c.

Record TreeStore := { columns : list coltype; roots : list TreeNode }.

(** A [Gtk.TreeIter] is identified with the path of its node. *)
Abbreviation TreePath := (list nat).

Definition TreeStore_new (cols : list coltype) : TreeStore :=
  {| columns := cols; roots := [] |}.

(** Storing a Python value in a column of the given type.  The script only
    stores a [str] in a [str] column and an [int] or [float] in a [float]
    column (see [build_row_fits]); the other combinations are given
    [TypeError]. *)
Definition to_gvalue (c : coltype) (v : pyval) : outcome gvalue :=
  match c, v with
  | ColStr, VStr s => Ok (GStr s)
  | ColFloat, VFloat f => Ok (GDouble f)
  | ColFloat, VInt z => do f <- float_of_int z; Ok (GDouble f)
  | _, _ => Raise TypeError
  end.

(** A row must have one value per column. *)
Fixpoint convert_row (cols : list coltype) (row : list pyval)
    : outcome (list gvalue) :=
  match cols, row with
  | [], [] => Ok []
  | c :: cols', v :: row' =>
      do g <- to_gvalue c v; do gs <- convert_row cols' row'; Ok (g :: gs)
  | _, _ => Raise ValueError
  end.

(** Add [n] as the last child of the node at [path] ([[]]: as the last
    top-level node); the result carries the path of the new node. *)
Fixpoint append_node (path : TreePath) (n : TreeNode) (forest : list TreeNode)
    : option (list TreeNode * TreePath) :=
  match path with
  | [] => Some (forest ++ [n], [length forest])
  | i :: path' =>
      match forest !! i with
      | Some (Node r ch) =>
          match append_node path' n ch with
          | Some (ch', p) => Some (<[i := Node r ch']> forest, i :: p)
          | None => None
          end
      | None => None
      end
  end.

(** [store.append(parent, row)]; [parent = None] is Python's [None], the
    top level.  Returns the iter of the new node. *)
Definition TreeStore_append (store : TreeStore) (parent : option TreePath)
    (row : list pyval) : outcome (TreeStore * TreePath) :=
  do grow <- convert_row (columns store) row;
  match append_node (default [] parent) (Node grow []) (roots store) with
  | Some (forest, li) => Ok ({| columns := columns store; roots := forest |}, li)
  | None => Raise ValueError
  end.

(** ** [build_treestore] *)

Definition SIZE_PROPERTIES : list string :=
  ["used"; "usedbychildren"; "usedbydataset";
   "usedbysnapshots"; "available"; "referenced"].

(** [prop in SIZE_PROPERTIES or prop == 'creation'] *)
Definition has_sort_column (prop : string) : bool :=
  bool_decide (prop ∈ SIZE_PROPERTIES) || bool_decide (prop = "creation").

(** The command line handed to [subprocess.check_output]. *)
Definition zfs_command (filesystem : option string) (props : list string)
    : list string :=
  ["zfs"; "list"; "-Hrpt"; "all"; "-o"; join "," (props ++ ["type"])]
  ++ match filesystem with
     | Some f => if bool_decide (f = "") then [] else [f]
     | None => []
     end.

(** What [subprocess.check_output(command)] followed by [.decode()] gives:
    an exception of [check_output] (the command could not be run or ended
    with a non-zero status), or the bytes of its standard output, decoded
    ([None] when they are not valid text). *)
Inductive command_result :=
  | CommandFailed
  | CommandOutput (decoded : option string).

(** The columns of the store, two for a property with a sort key. *)
Fixpoint store_columns (props : list string) : list coltype :=
  match props with
  | [] => []
  | prop :: props' =>
      (if has_sort_column prop then [ColStr; ColFloat] else [ColStr])
      ++ store_columns props'
  end.

Section Build.

(** [time.strftime('%a %b %d %H:%M %Y', time.localtime(t))]: depends on
    the time zone and locale of the process, and fails on a [t] outside
    the platform's range. *)
Variable strftime_localtime : Z -> outcome string.

(** The values one property contributes to the row of [fs]. *)
Definition row_values (fs : dict) (prop : string) : outcome (list pyval) :=
  if bool_decide (prop ∈ SIZE_PROPERTIES) then
    do v <- getitem fs prop;
    if bool_decide (v = "-") then Ok [VStr "-"; VInt 0]
    else
      do n <- py_int v;
      do display <- human_readable n true;
      do key <- py_float v;
      Ok [VStr display; VFloat key]
  else if bool_decide (prop = "creation") then
    do v <- getitem fs prop;
    do t <- py_int v;
    do display <- strftime_localtime t;
    do key <- py_float v;
    Ok [VStr display; VFloat key]
  else
    do v <- getitem fs prop; Ok [VStr v].

(** [for prop in props: row.append(...)] *)
Fixpoint build_row (fs : dict) (props : list string) : outcome (list pyval) :=
  match props with
  | [] => Ok []
  | prop :: props' =>
      do vs <- row_values fs prop;
      do row <- build_row fs props';
      Ok (vs ++ row)
  end.

(** One turn of [for fs in filesystems]; the state is the store and the
    variable [parent], [None] while it is unbound. *)
Definition add_record (props : list string)
    (st : TreeStore * option TreePath) (fs : dict)
    : outcome (TreeStore * option TreePath) :=
  let '(store, parent) := st in
  do row <- build_row fs props;
  do ty <- getitem fs "type";
  if bool_decide (ty = "filesystem") then
    do r <- TreeStore_append store None row;
    let '(store', li) := r in Ok (store', Some li)
  else if bool_decide (ty = "snapshot") then
    match parent with
    | None => Raise UnboundLocalError
    | Some p =>
        do r <- TreeStore_append store (Some p) row;
        let '(store', li) := r in Ok (store', parent)
    end
  else Ok (store, parent).

Fixpoint add_records (props : list string) (st : TreeStore * option TreePath)
    (filesystems : list dict) : outcome (TreeStore * option TreePath) :=
  match filesystems with
  | [] => Ok st
  | fs :: filesystems' =>
      do st' <- add_record props st fs; add_records props st' filesystems'
  end.

(** The part of [build_treestore] after parsing: new store, then the loop. *)
Definition fill_treestore (filesystems : list dict) (props : list string)
    : outcome TreeStore :=
  do st <- add_records props (TreeStore_new (store_columns props), None) filesystems;
  Ok (fst st).

Definition build_treestore (check_output : list string -> command_result)
    (filesystem : option string) (props : list string) : outcome TreeStore :=
  match check_output (zfs_command filesystem props) with
  | CommandFailed => SysExit "Error running zfs list"
  | CommandOutput None => Raise UnicodeDecodeError
  | CommandOutput (Some text) =>
      let output := str_split newline text in
      if bool_decide (output = [""]) then SysExit "Error: no zfs filesystems"
      else
        do filesystems <- parse_zfs_list_output output (props ++ ["type"]);
        fill_treestore filesystems props
  end.

(** ** [Gui] *)

(** The tree view: the model it shows and the top-level rows that are
    expanded.  Setting a model collapses every row; a row can only be
    expanded when it exists and has children. *)
Record TreeView := { model : TreeStore; expanded : list nat }.

Definition set_model (tv : TreeView) (m : TreeStore) : TreeView :=
  {| model := m; expanded := [] |}.

(** [tview.row_expanded(Gtk.TreePath(i))] *)
Definition row_expanded (tv : TreeView) (i : nat) : bool :=
  bool_decide (i ∈ expanded tv).

(** [tview.expand_row(Gtk.TreePath(i), False)] *)
Definition expand_row (tv : TreeView) (i : nat) : TreeView :=
  match roots (model tv) !! i with
  | Some (Node _ (_ :: _)) =>
      if row_expanded tv i then tv
      else {| model := model tv; expanded := expanded tv ++ [i] |}
  | _ => tv
  end.

(** The fields of a [Gui] object that [refresh_tree] reads or writes. *)
Record Gui := {
  gui_filesystem : option string;
  gui_props : list string;
  gui_store : TreeStore;
  gui_tview : TreeView
}.

(** [row[0]] for a row of the store. *)
Definition row_first (n : TreeNode) : outcome gvalue :=
  match node_row n with
  | v :: _ => Ok v
  | [] => Raise IndexError
  end.

(** The first loop of [refresh_tree], over [enumerate(self.store)] from
    index [i] on. *)
Fixpoint remember_expanded (tv : TreeView) (i : nat) (rows : list TreeNode)
    (expanded_rows : list gvalue) : outcome (list gvalue) :=
  match rows with
  | [] => Ok expanded_rows
  | row :: rows' =>
      if row_expanded tv i then
        do name <- row_first row;
        remember_expanded tv (S i) rows' (expanded_rows ++ [name])
      else remember_expanded tv (S i) rows' expanded_rows
  end.

(** The last loop of [refresh_tree], again over [enumerate(self.store)]. *)
Fixpoint expand_remembered (tv : TreeView) (i : nat) (rows : list TreeNode)
    (expanded_rows : list gvalue) : outcome TreeView :=
  match rows with
  | [] => Ok tv
  | row :: rows' =>
      do name <- row_first row;
      if bool_decide (name ∈ expanded_rows) then
        expand_remembered (expand_row tv i) (S i) rows' expanded_rows
      else expand_remembered tv (S i) rows' expanded_rows
  end.

(** [refresh_tree]: [self.store] is read by both loops and never assigned;
    the new store only becomes the model of the view. *)
Definition refresh_tree (check_output : list string -> command_result)
    (self : Gui) : outcome Gui :=
  do expanded_rows <-
    remember_expanded (gui_tview self) 0 (roots (gui_store self)) [];
  do treestore <-
    build_treestore check_output (gui_filesystem self) (gui_props self);
  let tview := set_model (gui_tview self) treestore in
  do tview' <- expand_remembered tview 0 (roots (gui_store self)) expanded_rows;
  Ok {| gui_filesystem := gui_filesystem self; gui_props := gui_props self;
        gui_store := gui_store self; gui_tview := tview' |}.

(** [Gui.__init__], as far as the store and the view are concerned; the
    window title is [self.store[0][0]]. *)
Definition Gui_init (check_output : list string -> command_result)
    (filesystem : option string) (props : list string) : outcome Gui :=
  do store <- build_treestore check_output filesystem props;
  do title <- match roots store with
              | row :: _ => row_first row
              | [] => Raise IndexError
              end;
  Ok {| gui_filesystem := filesystem; gui_props := props;
        gui_store := store; gui_tview := {| model := store; expanded := [] |} |}.

End Build.

(** ** The property list of the [__main__] block *)

Definition rename (old new : string) (props : list string) : list string :=
  (fun p => if bool_decide (p = old) then new else p) <$> props.

(** [props] as passed to [Gui], from the value of the [-o] option. *)
Definition main_props (o : string) : list string :=
  let props := str_split comma o in
  let props := if bool_decide ("name" ∈ props) then props else "name" :: props in
  let props := rename "avail" "available" props in
  let props := rename "refer" "referenced" props in
  let props := rename "ratio" "compressratio" props in
  props.

(** ** The columns of the view and the saved options *)

(** The options [pickle] keeps between runs, as far as the script reads
    them: [gui_opts.get('width')], [gui_opts.get('height')] and
    [gui_opts.get('column_widths')]; [None] for a key that is missing. *)
Record GuiOpts := {
  opt_width : option Z;
  opt_height : option Z;
  opt_column_widths : option (gmap string Z)
}.

(** [gui_opts = {}] *)
Definition no_opts : GuiOpts :=
  {| opt_width := None; opt_height := None; opt_column_widths := None |}.

(** What [Gui.__init__] sets on a [Gtk.TreeViewColumn]. *)
Record TreeViewColumn := {
  col_title : string;
  col_text : nat;
  col_right : bool;
  col_sort_column_id : nat;
  col_fixed_width : option Z
}.

(** [gui_opts.get('column_widths', {}).get(c)], kept when it is true as a
    condition: neither [None] nor zero. *)
Definition saved_width (gui_opts : GuiOpts) (c : string) : option Z :=
  match default ∅ (opt_column_widths gui_opts) !! c with
  | Some w => if bool_decide (w = 0) then None else Some w
  | None => None
  end.

(** The loop [for c in self.props] of [Gui.__init__], from the value
    [_index] has when it starts. *)
Fixpoint view_columns (gui_opts : GuiOpts) (_index : nat) (props : list string)
    : list TreeViewColumn :=
  match props with
  | [] => []
  | c :: props' =>
      {| col_title := c;
         col_text := _index;
         col_right := negb (bool_decide (c ∈ ["name"; "mountpoint"; "creation"]));
         col_sort_column_id := if has_sort_column c then S _index else _index;
         col_fixed_width := saved_width gui_opts c |}
      :: view_columns gui_opts
           (S (if has_sort_column c then S _index else _index)) props'
  end.

(** [window.set_default_size(gui_opts.get('width', 800),
    gui_opts.get('height', 600))] *)
Definition default_size (gui_opts : GuiOpts) : Z * Z :=
  (default 800 (opt_width gui_opts), default 600 (opt_height gui_opts)).

(** [for c in cols: column_widths[c.get_title()] = c.get_width()], on the
    titles and widths of the columns in the order [get_columns] gives. *)
Fixpoint column_widths (cols : list (string * Z)) (acc : gmap string Z)
    : gmap string Z :=
  match cols with
  | [] => acc
  | (title, width) :: cols' => column_widths cols' (<[title := width]> acc)
  end.

(** The [gui_opts] that [Gui.close] hands to [pickle.dump], from the size
    of the window and the columns of the view. *)
Definition close (size : Z * Z) (cols : list (string * Z)) : GuiOpts :=
  {| opt_width := Some size.1; opt_height := Some size.2;
     opt_column_widths := Some (column_widths cols ∅) |}.

(** [gui_opts] in the [__main__] block: what [pickle.load] gives, [{}] when
    it raises. *)
Definition load_opts (pickled : option GuiOpts) : GuiOpts :=
  default no_opts pickled.

(** * Vocabulary of the statements *)

(** The parameters of the two modes. *)
Definition mode_base (binary : bool) : Z := if binary then 1024 else 1000.
Definition mode_sep (binary : bool) : string := if binary then "" else " ".
Definition mode_units (binary : bool) : list string :=
  if binary then binary_units else decimal_units.
Definition mode_last (binary : bool) : string := if binary then "YiB" else "YB".

(** [x] after [k] divisions by [base]. *)
Fixpoint scaled (base : Z) (k : nat) (x : float) : float :=
  match k with
  | O => x
  | S k' => float_div (scaled base k' x) (nearest_float base)
  end.

(** [abs(x) < c] for a float [x] and a float literal of integer value [c]. *)
Definition below (x : float) (c : Z) : bool :=
  float_ltb (float_abs x) (nearest_float c).

(** A stand-in for the time formatter in the concrete examples below, none
    of which has a [creation] column. *)
Definition strftime_unused (t : Z) : outcome string := Raise OverflowError.

(** One line of [zfs list -H] output from its fields, and the whole output
    from its lines. *)
Definition tsv (fields : list string) : string := join (String tab "") fields.
Definition unlines (lines : list string) : string :=
  String.concat "" ((fun l => l +:+ String newline "") <$> lines).

(** The three substitutions at once. *)
Definition resolve_alias (p : string) : string :=
  if bool_decide (p = "avail") then "available"
  else if bool_decide (p = "refer") then "referenced"
  else if bool_decide (p = "ratio") then "compressratio"
  else p.

(** An output of [n] line ends and nothing else. *)
Fixpoint blank_lines (n : nat) : string :=
  match n with
  | O => ""
  | S n' => String newline (blank_lines n')
  end.

Definition is_filesystem (fs : dict) : Prop := fs !! "type" = Some "filesystem".
Definition is_snapshot (fs : dict) : Prop := fs !! "type" = Some "snapshot".

#[global] Instance is_filesystem_dec fs : Decision (is_filesystem fs).
Proof. unfold is_filesystem. apply _. Defined.
#[global] Instance is_snapshot_dec fs : Decision (is_snapshot fs).
Proof. unfold is_snapshot. apply _. Defined.

(** The row of the node that is stored for a record. *)
Definition stored_row (strftime_localtime : Z -> outcome string)
    (props : list string) (fs : dict) : outcome (list gvalue) :=
  do row <- build_row strftime_localtime fs props;
  convert_row (store_columns props) row.

(** The loop only reaches states of this form: the columns never change
    and [parent] is the last top-level node, unbound while there is
    none. *)
Definition last_root (forest : list TreeNode) : option TreePath :=
  match forest with
  | [] => None
  | _ :: _ => Some [pred (length forest)]
  end.

Definition state_of (props : list string) (forest : list TreeNode)
    : TreeStore * option TreePath :=
  ({| columns := store_columns props; roots := forest |}, last_root forest).

(** Following the spec's words: the snapshot records at the front of a
    record list, up to the next filesystem record. *)
Fixpoint snapshots_until_filesystem (records : list dict) : list dict :=
  match records with
  | [] => []
  | r :: records' =>
      if decide (is_filesystem r) then []
      else (if decide (is_snapshot r) then [r] else [])
           ++ snapshots_until_filesystem records'
  end.

(** Following the spec's words: every filesystem record, in input order,
    with the snapshot records it owns: those for which it is the nearest
    preceding filesystem record, in arrival order. *)
Fixpoint ownership (records : list dict) : list (dict * list dict) :=
  match records with
  | [] => []
  | r :: records' =>
      if decide (is_filesystem r)
      then (r, snapshots_until_filesystem records') :: ownership records'
      else ownership records'
  end.

(** A child node made from a snapshot record: its row, and no children. *)
Definition child_of (strftime_localtime : Z -> outcome string)
    (props : list string) (c : TreeNode) (s : dict) : Prop :=
  stored_row strftime_localtime props s = Ok (node_row c) /\ node_children c = [].

(** A top-level node made from a filesystem record and the snapshots it
    owns. *)
Definition root_of (strftime_localtime : Z -> outcome string)
    (props : list string) (n : TreeNode) (g : dict * list dict) : Prop :=
  stored_row strftime_localtime props g.1 = Ok (node_row n) /\
  Forall2 (child_of strftime_localtime props) (node_children n) g.2.

(** Children given to the last top-level node. *)
Definition adopt (forest : list TreeNode) (cs : list TreeNode) : list TreeNode :=
  match reverse forest with
  | [] => []
  | Node r ch :: front => reverse front ++ [Node r (ch ++ cs)]
  end.

(** A record of the schema [name, used, type]. *)
Definition record (name used kind : string) : dict :=
  <["name" := name]> (<["used" := used]> (<["type" := kind]> ∅)).

(** One pool with a snapshot, a volume, another snapshot, then a second
    pool. *)
Definition sample_records : list dict :=
  [record "tank" "10240" "filesystem"; record "tank@a" "0" "snapshot";
   record "tank/vol" "2048" "volume"; record "tank@b" "-" "snapshot";
   record "pool2" "1536" "filesystem"].

Definition sample_store : TreeStore :=
  {| columns := [ColStr; ColStr; ColFloat];
     roots :=
       [Node [GStr "tank"; GStr "10.0K"; GDouble (nearest_float 10240)]
          [Node [GStr "tank@a"; GStr "0B"; GDouble (S754_zero false)] [];
           Node [GStr "tank@b"; GStr "-"; GDouble (S754_zero false)] []];
        Node [GStr "pool2"; GStr "1.50K"; GDouble (nearest_float 1536)] []] |}.

(** The float [x] has exactly the integer value [n]. *)
Definition float_is_int (x : float) (n : Z) : bool :=
  match x with
  | S754_zero _ => n =? 0
  | S754_finite s m e =>
      let v := cond_Zopp s (Z.pos m) in
      if 0 <=? e then v * 2 ^ e =? n else v =? n * 2 ^ (- e)
  | _ => false
  end.

(** Two pools, each with a snapshot; then a third one created between
    them. *)
Definition listing_before : string :=
  unlines [tsv ["tank"; "filesystem"]; tsv ["tank@s"; "snapshot"];
           tsv ["tank/b"; "filesystem"]; tsv ["tank/b@s"; "snapshot"]].

Definition listing_after : string :=
  unlines [tsv ["tank"; "filesystem"]; tsv ["tank@s"; "snapshot"];
           tsv ["tank/a"; "filesystem"]; tsv ["tank/a@s"; "snapshot"];
           tsv ["tank/b"; "filesystem"]; tsv ["tank/b@s"; "snapshot"]].

(** The user's click on the expander of row [i]. *)
Definition user_expands (i : nat) (self : Gui) : Gui :=
  {| gui_filesystem := gui_filesystem self; gui_props := gui_props self;
     gui_store := gui_store self; gui_tview := expand_row (gui_tview self) i |}.

(** The names of the top-level rows a view shows expanded. *)
Definition expanded_names (tv : TreeView) : list (outcome gvalue) :=
  (fun i => match roots (model tv) !! i with
            | Some row => row_first row
            | None => Raise IndexError
            end) <$> expanded tv.

(** The character [c] does not occur in [s]. *)
Fixpoint without_char (c : ascii) (s : string) : bool :=
  match s with
  | EmptyString => true
  | String a s' => negb (Ascii.eqb a c) && without_char c s'
  end.

(** How a computation failed, if it did: the exception raised or the
    message of [sys.exit]. *)
Definition failure {A} (m : outcome A) : option (exn + string) :=
  match m with
  | Ok _ => None
  | Raise e => Some (inl e)
  | SysExit msg => Some (inr msg)
  end.

(** A record whose row can be built and which has a [type]. *)
Definition record_ok (strftime_localtime : Z -> outcome string)
    (props : list string) (fs : dict) : Prop :=
  returns (build_row strftime_localtime fs props) = true /\
  is_Some (fs !! "type").

(** The number of children of the top-level nodes, all together. *)
Definition child_count (forest : list TreeNode) : nat :=
  sum_list ((fun n => length (node_children n)) <$> forest).


(** The top-level row [k] of a store has children. *)
Definition has_children (store : TreeStore) (k : nat) : bool :=
  match roots store !! k with
  | Some (Node _ (_ :: _)) => true
  | _ => false
  end.

(** The name in row [k] of a store: [store[k][0]]. *)
Definition name_at (store : TreeStore) (k : nat) : option (outcome gvalue) :=
  row_first <$> roots store !! k.

(** A [Gui] that shows [tank] and [tank/b], each with one snapshot, the
    second expanded. *)
Definition sample_gui : Gui :=
  let store :=
    {| columns := [ColStr];
       roots := [Node [GStr "tank"] [Node [GStr "tank@s"] []];
                 Node [GStr "tank/b"] [Node [GStr "tank/b@s"] []]] |} in
  {| gui_filesystem := None; gui_props := ["name"]; gui_store := store;
     gui_tview := {| model := store; expanded := [1%nat] |} |}.

(** The quotient [num / den] of two positive integers in fixed notation
    with [d] decimals, rounded once (ties to even). *)
Definition fixed_quotient (d : nat) (num den : Z) : string :=
  let scale := 10 ^ Z.of_nat d in
  let r := round_half_even (num * scale) den in
  str_of_int (r / scale) +:+ "." +:+ pad_zeros d (str_of_int (r mod scale)).

(** * Properties *)

(** ** [human_readable] *)

Lemma human_readable_unfold num binary :
  human_readable num binary =
  if Z.abs num <? mode_base binary
  then Ok (str_of_int num +:+ mode_sep binary +:+ "B")
  else scale_loop (mode_base binary) (mode_sep binary) (mode_units binary)
         (mode_last binary) (PInt num).
Proof. destruct binary; reflexivity. Qed.

Lemma float_10 : nearest_float 10 = S754_finite false 5629499534213120 (-49).
Proof. vm_compute. reflexivity. Qed.

Lemma float_1000 : nearest_float 1000 = S754_finite false 8796093022208000 (-43).
Proof. vm_compute. reflexivity. Qed.

Lemma float_1024 : nearest_float 1024 = S754_finite false 4503599627370496 (-42).
Proof. vm_compute. reflexivity. Qed.

(** A magnitude below [10.0] is below [1000.0] and below [1024.0]. *)
Lemma below_10_base x binary :
  below x 10 = true -> below x (mode_base binary) = true.
Proof.
  unfold below, float_ltb, SFltb.
  assert (Hb : nearest_float (mode_base binary) =
    S754_finite false
      (if binary then 4503599627370496 else 8796093022208000)%positive
      (if binary then -42 else -43)).
  { destruct binary; [apply float_1024 | apply float_1000]. }
  rewrite Hb, float_10.
  destruct x as [s|s| |s m e]; cbn [float_abs SFabs SFcompare]; [done..|].
  destruct (Z.compare_spec e (-49)) as [He|He|He]; [ | |discriminate].
  - subst e. intros _. by destruct binary.
  - intros _. destruct binary.
    + destruct (Z.compare_spec e (-42)); [lia|done|lia].
    + destruct (Z.compare_spec e (-43)); [lia|done|lia].
Qed.

Section ScaleLoop.
Variable binary : bool.
Let base := mode_base binary.
Variables (sep last : string).

Local Opaque nearest_float float_div float_abs float_ltb format_fixed.

Lemma scaled_shift k x :
  scaled base (S k) x = scaled base k (float_div x (nearest_float base)).
Proof.
  induction k as [|k IH]; [reflexivity|].
  change (scaled base (S (S k)) x)
    with (float_div (scaled base (S k) x) (nearest_float base)).
  rewrite IH. reflexivity.
Qed.

(** One turn of the loop on a float that is not yet below the base. *)
Lemma scale_loop_next u units x :
  below x base = false ->
  scale_loop base sep (u :: units) last (PFloat x) =
  scale_loop base sep units last (PFloat (float_div x (nearest_float base))).
Proof.
  intros H0. cbn [scale_loop num_abs num_ltb].
  fold (below x 10). fold (below x base).
  destruct (below x 10) eqn:H10.
  { apply (below_10_base _ binary) in H10. fold base in H10. congruence. }
  rewrite H0. reflexivity.
Qed.

(** The loop stops at the first unit whose scaled magnitude is below the
    base. *)
Lemma scale_loop_stops units x k unit :
  units !! k = Some unit ->
  (forall j, (j < k)%nat -> below (scaled base j x) base = false) ->
  below (scaled base k x) base = true ->
  scale_loop base sep units last (PFloat x) =
  Ok (format_fixed (if below (scaled base k x) 10 then 2 else 1) (scaled base k x)
      +:+ sep +:+ unit).
Proof.
  revert units x. induction k as [|k IH]; intros units x Hk Hlt Hhit.
  - destruct units as [|u units]; [discriminate|]. injection Hk as ->.
    change (scaled base 0 x) with x in *.
    cbn [scale_loop num_abs num_ltb].
    fold (below x 10). fold (below x base).
    rewrite Hhit. destruct (below x 10); reflexivity.
  - destruct units as [|u units]; [discriminate|].
    change ((u :: units) !! S k) with (units !! k) in Hk.
    rewrite scale_loop_next by (apply (Hlt 0%nat); lia).
    rewrite scaled_shift in *.
    apply IH; [exact Hk| |exact Hhit].
    intros j Hj. rewrite <- scaled_shift. apply Hlt. lia.
Qed.

(** When no unit fits, the value scaled once per unit is shown with the
    last unit and one decimal. *)
Lemma scale_loop_exhausted units x :
  (forall j, (j < length units)%nat -> below (scaled base j x) base = false) ->
  scale_loop base sep units last (PFloat x) =
  Ok (format_fixed 1 (scaled base (length units) x) +:+ sep +:+ last).
Proof.
  revert x. induction units as [|u units IH]; intros x Hlt; [reflexivity|].
  rewrite scale_loop_next by (apply (Hlt 0%nat); cbn [length]; lia).
  cbn [length]. rewrite scaled_shift. apply IH.
  intros j Hj. rewrite <- scaled_shift. apply Hlt. cbn [length]. lia.
Qed.

(** The first turn of the loop, on the [int] argument. *)
Lemma scale_loop_int u units num :
  base <= Z.abs num ->
  scale_loop base sep (u :: units) last (PInt num) =
  do x <- float_of_int num;
  scale_loop base sep units last (PFloat (float_div x (nearest_float base))).
Proof.
  intros Hge. cbn [scale_loop num_abs num_ltb].
  assert (10 <= base) by (subst base; destruct binary; cbn; lia).
  destruct (Z.ltb_spec (Z.abs num) 10); [lia|].
  destruct (Z.ltb_spec (Z.abs num) base); [lia|].
  unfold num_div, num_to_float. destruct (float_of_int num); reflexivity.
Qed.
End ScaleLoop.

(** From the base on, the integer is converted and divided once, and the
    loop goes on with the units after [B]. *)
Lemma human_readable_large num binary :
  mode_base binary <= Z.abs num ->
  human_readable num binary =
  do x <- float_of_int num;
  scale_loop (mode_base binary) (mode_sep binary) (tail (mode_units binary))
    (mode_last binary)
    (PFloat (float_div x (nearest_float (mode_base binary)))).
Proof.
  intros Hge. rewrite human_readable_unfold.
  destruct (Z.ltb_spec (Z.abs num) (mode_base binary)) as [?|_]; [lia|].
  destruct binary; apply (scale_loop_int _ _ _ "B"), Hge.
Qed.

(** On a float the loop always comes to a string. *)
Lemma scale_loop_float_returns base sep units last x :
  returns (scale_loop base sep units last (PFloat x)) = true.
Proof.
  revert x. induction units as [|u units IH]; intros x; [reflexivity|].
  cbn [scale_loop num_abs]. destruct (num_ltb _ 10); [reflexivity|].
  destruct (num_ltb _ base); [reflexivity|]. apply IH.
Qed.

(** [human_readable] fails only when the conversion to a float does. *)
Lemma human_readable_returns num binary :
  returns (float_of_int num) = true -> returns (human_readable num binary) = true.
Proof.
  intros Hx. destruct (Z.lt_ge_cases (Z.abs num) (mode_base binary)) as [Hlt|Hge].
  - rewrite human_readable_unfold.
    destruct (Z.ltb_spec (Z.abs num) (mode_base binary)); [reflexivity|lia].
  - rewrite human_readable_large by exact Hge.
    destruct (float_of_int num); try discriminate. apply scale_loop_float_returns.
Qed.

(** C8: the four sample values of [human_readable]: 999 and 1000 in decimal
    mode, 1536 and 0 in binary mode. *)
Theorem human_readable_samples :
  human_readable 999 false = Ok "999 B" /\
  human_readable 1000 false = Ok "1.00 KB" /\
  human_readable 1536 true = Ok "1.50K" /\
  human_readable 0 true = Ok "0B".
Proof. repeat split; vm_compute; reflexivity. Qed.

(** C7, as the code has it: below the base the integer is printed with the
    unit [B]; from the base on, the integer is converted to a float (which
    fails with [OverflowError] when it is too large) and divided by the base
    once per unit; the first unit [K]..[Z] ([KB]..[ZB]) whose scaled
    magnitude is below the base is used, with two decimals when that
    magnitude is below 10 and one otherwise; when none fits, the value
    divided eight times is printed with one decimal, whatever its
    magnitude, and the unit [YiB] ([YB]). *)
Theorem human_readable_scaling (num : Z) (binary : bool) :
  let base := mode_base binary in
  let sep := mode_sep binary in
  (Z.abs num < base ->
     human_readable num binary = Ok (str_of_int num +:+ sep +:+ "B")) /\
  (base <= Z.abs num ->
     (forall e, float_of_int num = Raise e -> human_readable num binary = Raise e) /\
     (forall x, float_of_int num = Ok x ->
        (forall k unit,
           (1 <= k)%nat -> mode_units binary !! k = Some unit ->
           (forall j, (1 <= j < k)%nat -> below (scaled base j x) base = false) ->
           below (scaled base k x) base = true ->
           human_readable num binary =
           Ok (format_fixed (if below (scaled base k x) 10 then 2 else 1)
                 (scaled base k x) +:+ sep +:+ unit)) /\
        ((forall j, (1 <= j <= 7)%nat -> below (scaled base j x) base = false) ->
           human_readable num binary =
           Ok (format_fixed 1 (scaled base 8 x) +:+ sep +:+ mode_last binary)))).
Proof.
  intros base sep. subst base sep. split.
  { intros Hlt. rewrite human_readable_unfold.
    destruct (Z.ltb_spec (Z.abs num) (mode_base binary)); [reflexivity|lia]. }
  intros Hge.
  assert (Hu : exists units, mode_units binary = "B" :: units /\ length units = 7%nat).
  { destruct binary; eexists; split; reflexivity. }
  destruct Hu as (units & Hu & Hlen).
  rewrite human_readable_large, Hu by exact Hge. cbn [tail]. split.
  { intros e He. rewrite He. reflexivity. }
  intros x Hx. rewrite Hx. cbn [bind]. split.
  - intros [|k] unit Hk Hlook Hlt Hhit; [lia|].
    change (("B" :: units) !! S k) with (units !! k) in Hlook.
    rewrite scaled_shift in *.
    apply scale_loop_stops; [exact Hlook| |exact Hhit].
    intros j Hj. rewrite <- scaled_shift. apply Hlt. lia.
  - intros Hlt. rewrite scale_loop_exhausted.
    + rewrite Hlen, <- scaled_shift. reflexivity.
    + intros j Hj. rewrite <- scaled_shift. apply Hlt. lia.
Qed.

(** The statement above applied to 1536 in binary mode, which stops at
    [K]. *)
Lemma human_readable_scaling_witness :
  human_readable 1536 true =
  Ok (format_fixed (if below (scaled 1024 1 (nearest_float 1536)) 10 then 2 else 1)
        (scaled 1024 1 (nearest_float 1536)) +:+ "" +:+ "K").
Proof.
  refine (proj1 (proj2 (proj2 (human_readable_scaling 1536 true)
            ltac:(vm_compute; discriminate)) (nearest_float 1536)
            ltac:(vm_compute; reflexivity)) 1%nat "K" _ _ _ _).
  - lia.
  - reflexivity.
  - intros j Hj. lia.
  - vm_compute. reflexivity.
Defined.

(** C7 as stated fails at [1024^8]: the value scaled eight times is [1.0],
    a magnitude below 10, yet it is printed with one decimal, and the unit
    is [YiB]; two decimals and the unit [Yi] would give another string. *)
Lemma human_readable_terminal_counterexample :
  let x := scaled 1024 8 (nearest_float (1024 ^ 8)) in
  below x 10 = true /\
  human_readable (1024 ^ 8) true = Ok "1.0YiB" /\
  human_readable (1024 ^ 8) true <> Ok (format_fixed 2 x +:+ "Yi").
Proof.
  cbv zeta. split; [|split].
  - vm_compute. reflexivity.
  - vm_compute. reflexivity.
  - vm_compute. discriminate.
Qed.

(** ** [parse_zfs_list_output] *)

Lemma fill_props_short line i props d :
  (i <= length line < i + length props)%nat ->
  fill_props line i props d = Raise IndexError.
Proof.
  revert i d. induction props as [|prop props IH]; intros i d Hlen.
  - cbn [length] in Hlen. lia.
  - cbn [fill_props length] in *.
    destruct (line !! i) as [v|] eqn:Hi; [|reflexivity].
    apply lookup_lt_Some in Hi. apply IH. lia.
Qed.

Lemma fill_props_enough line i props d :
  (i + length props <= length line)%nat ->
  exists d', fill_props line i props d = Ok d'.
Proof.
  revert i d. induction props as [|prop props IH]; intros i d Hlen.
  - eexists. reflexivity.
  - cbn [fill_props length] in *.
    destruct (lookup_lt_is_Some_2 line i ltac:(lia)) as [v ->].
    apply IH. lia.
Qed.

(** Only the first [i + length props] fields are read. *)
Lemma fill_props_take line i props d :
  fill_props (take (i + length props) line) i props d = fill_props line i props d.
Proof.
  revert i d. induction props as [|prop props IH]; intros i d; [reflexivity|].
  cbn [fill_props length].
  rewrite lookup_take_lt by lia.
  destruct (line !! i) as [v|]; [|reflexivity].
  replace (i + S (length props))%nat with (S i + length props)%nat by lia.
  apply IH.
Qed.


Lemma parse_short_line lines props line :
  line ∈ lines -> line <> "" ->
  (length (str_split tab line) < length props)%nat ->
  parse_zfs_list_output lines props = Raise IndexError.
Proof.
  intros Hin Hne Hlen. induction lines as [|l lines IH]; [by apply elem_of_nil in Hin|].
  cbn [parse_zfs_list_output].
  apply elem_of_cons in Hin as [<-|Hin].
  - rewrite bool_decide_eq_false_2 by exact Hne.
    by rewrite fill_props_short by (cbn; lia).
  - specialize (IH Hin). case_bool_decide; [exact IH|]. rewrite IH.
    destruct (Nat.le_gt_cases (length props) (length (str_split tab l))) as [Hle|Hgt].
    + by destruct (fill_props_enough (str_split tab l) 0 props ∅ Hle) as [d' ->].
    + by rewrite fill_props_short by (cbn; lia).
Qed.

(** C2, as the code has it: a non-empty line with fewer fields than the
    schema makes the parser, and with it [build_treestore], fail with
    [IndexError] (which carries no line position), so that no record list
    and no tree is returned; a line with more fields than the schema is
    accepted, and only its first [len(schema)] fields are read. *)
Theorem parse_field_count strftime check_output filesystem props text line :
  check_output (zfs_command filesystem props) = CommandOutput (Some text) ->
  line ∈ str_split newline text -> line <> "" ->
  let schema := props ++ ["type"] in
  let fields := str_split tab line in
  ((length fields < length schema)%nat ->
     parse_zfs_list_output (str_split newline text) schema = Raise IndexError /\
     build_treestore strftime check_output filesystem props = Raise IndexError) /\
  ((length schema < length fields)%nat ->
     exists d, fill_props fields 0 schema ∅ = Ok d /\
               fill_props (take (length schema) fields) 0 schema ∅ = Ok d /\
               parse_zfs_list_output [line] schema = Ok [d]).
Proof.
  intros Hrun Hin Hne schema fields. split.
  - intros Hlen.
    assert (Hparse : parse_zfs_list_output (str_split newline text) schema
                     = Raise IndexError)
      by (eapply parse_short_line; eassumption).
    split; [exact Hparse|].
    unfold build_treestore. rewrite Hrun.
    case_bool_decide as Hout.
    + rewrite Hout in Hin. apply list_elem_of_singleton in Hin. contradiction.
    + fold schema. rewrite Hparse. reflexivity.
  - intros Hlen.
    destruct (fill_props_enough fields 0 schema ∅) as [d Hd]; [cbn; lia|].
    exists d. split; [exact Hd|]. split.
    + rewrite <- Hd. apply (fill_props_take fields 0 schema ∅).
    + cbn [parse_zfs_list_output]. rewrite bool_decide_eq_false_2 by exact Hne.
      fold fields. rewrite Hd. reflexivity.
Qed.

(** The statement above at a two-field line under the schema
    [name, used, type]. *)
Lemma parse_field_count_witness :
  parse_zfs_list_output (str_split newline (unlines [tsv ["tank"; "10240"]]))
    (["name"; "used"] ++ ["type"]) = Raise IndexError /\
  build_treestore strftime_unused
    (fun _ => CommandOutput (Some (unlines [tsv ["tank"; "10240"]])))
    None ["name"; "used"] = Raise IndexError.
Proof.
  refine (proj1 (parse_field_count strftime_unused
            (fun _ => CommandOutput (Some (unlines [tsv ["tank"; "10240"]])))
            None ["name"; "used"] (unlines [tsv ["tank"; "10240"]])
            (tsv ["tank"; "10240"]) eq_refl _ _) _).
  - vm_compute. apply list_elem_of_here.
  - vm_compute. discriminate.
  - vm_compute. lia.
Defined.

(** C2 as stated fails on a line with one field too many: it is parsed
    into a record, and [build_treestore] returns a tree with its node. *)
Lemma parse_long_line_counterexample :
  let line := tsv ["tank"; "10240"; "filesystem"; "extra"] in
  line <> "" /\
  length (str_split tab line) <> length (["name"; "used"] ++ ["type"]) /\
  parse_zfs_list_output [line] (["name"; "used"] ++ ["type"]) =
    Ok [record "tank" "10240" "filesystem"] /\
  build_treestore strftime_unused (fun _ => CommandOutput (Some (unlines [line])))
    None ["name"; "used"] =
    Ok {| columns := [ColStr; ColStr; ColFloat];
          roots := [Node [GStr "tank"; GStr "10.0K";
                          GDouble (nearest_float 10240)] []] |}.
Proof.
  cbv zeta. split; [|split; [|split]].
  - vm_compute. discriminate.
  - vm_compute. lia.
  - vm_compute. reflexivity.
  - vm_compute. reflexivity.
Qed.

(** ** The property list *)

Lemma rename_resolve_alias props :
  rename "ratio" "compressratio"
    (rename "refer" "referenced" (rename "avail" "available" props))
  = resolve_alias <$> props.
Proof.
  unfold rename. rewrite <- !list_fmap_compose. apply list_fmap_ext.
  intros _ p _. unfold compose, resolve_alias.
  repeat (case_bool_decide; subst; try done).
Qed.

Lemma main_props_unfold o :
  main_props o =
  resolve_alias <$>
    (if bool_decide ("name" ∈ str_split comma o) then str_split comma o
     else "name" :: str_split comma o).
Proof. unfold main_props. apply rename_resolve_alias. Qed.

Lemma resolve_alias_name p : resolve_alias p = "name" <-> p = "name".
Proof.
  unfold resolve_alias. split.
  - repeat (case_bool_decide; try done).
  - intros ->. reflexivity.
Qed.

Lemma resolve_alias_not_alias p a :
  a ∈ ["avail"; "refer"; "ratio"] -> resolve_alias p <> a.
Proof.
  intros Ha. unfold resolve_alias.
  repeat (case_bool_decide; subst);
    repeat (apply elem_of_cons in Ha as [->|Ha]; try done);
    by apply elem_of_nil in Ha.
Qed.

(** C3, as the code has it: the result lists the given names in their
    order with the aliases resolved, with [name] put in front only when it
    was not given; so [name] is always present and no alias remains, but a
    given [name] keeps its place and repeated names stay repeated. *)
Theorem main_props_normalized (o : string) :
  let given := str_split comma o in
  let props := main_props o in
  "name" ∈ props /\
  (forall a, a ∈ ["avail"; "refer"; "ratio"] -> a ∉ props) /\
  ("name" ∈ given -> props = resolve_alias <$> given) /\
  ("name" ∉ given -> props = "name" :: (resolve_alias <$> given)) /\
  (NoDup (resolve_alias <$> given) -> NoDup props).
Proof.
  intros given props. subst props. rewrite main_props_unfold. fold given.
  split; [|split; [|split; [|split]]].
  - case_bool_decide as Hin.
    + apply list_elem_of_fmap. exists "name". split; [reflexivity|exact Hin].
    + apply list_elem_of_here.
  - intros a Ha Hin. apply list_elem_of_fmap in Hin as (p & Hp & _).
    by eapply resolve_alias_not_alias.
  - intros Hin. by rewrite bool_decide_eq_true_2.
  - intros Hin. by rewrite bool_decide_eq_false_2.
  - intros Hnd. case_bool_decide as Hin; [exact Hnd|].
    rewrite fmap_cons. change (resolve_alias "name") with "name".
    apply NoDup_cons. split; [|exact Hnd].
    intros Hin'. apply list_elem_of_fmap in Hin' as (p & Hp & Hpin).
    symmetry in Hp. apply (proj1 (resolve_alias_name p)) in Hp.
    subst p. exact (Hin Hpin).
Qed.

(** The statement above at the default value of [-o]. *)
Lemma main_props_normalized_witness :
  main_props "name,used,avail,refer,mountpoint" =
  resolve_alias <$> str_split comma "name,used,avail,refer,mountpoint".
Proof.
  refine (proj1 (proj2 (proj2
            (main_props_normalized "name,used,avail,refer,mountpoint"))) _).
  vm_compute. apply list_elem_of_here.
Defined.

(** C3 as stated fails on ["used,name,used"]: [used] is listed twice and
    the first entry is not [name]. *)
Lemma main_props_counterexample :
  main_props "used,name,used" = ["used"; "name"; "used"] /\
  ~ NoDup (main_props "used,name,used") /\
  main_props "used,name,used" !! 0%nat <> Some "name".
Proof.
  split; [vm_compute; reflexivity|]. split.
  - change (main_props "used,name,used") with ["used"; "name"; "used"].
    intros Hnd. apply NoDup_cons in Hnd as [Hnotin _].
    apply Hnotin. apply list_elem_of_further, list_elem_of_here.
  - vm_compute. discriminate.
Qed.

(** ** Empty output *)

Lemma str_split_blank_lines n :
  str_split newline (blank_lines n) = replicate (S n) "".
Proof.
  induction n as [|n IH]; [reflexivity|].
  cbn [blank_lines str_split]. rewrite Ascii.eqb_refl, IH. reflexivity.
Qed.

Lemma parse_blank_lines n props :
  parse_zfs_list_output (replicate n "") props = Ok [].
Proof. induction n as [|n IH]; [reflexivity|exact IH]. Qed.

(** C9, as the code has it: when the command succeeds with empty output,
    [build_treestore] ends the process with the message
    ['Error: no zfs filesystems'], so neither [Gui.__init__] nor
    [refresh_tree] gets a tree; an output that has line ends but no record
    passes the test and gives a tree without nodes. *)
Theorem empty_output strftime check_output filesystem props text :
  check_output (zfs_command filesystem props) = CommandOutput (Some text) ->
  (text = "" ->
     build_treestore strftime check_output filesystem props
       = SysExit "Error: no zfs filesystems" /\
     Gui_init strftime check_output filesystem props
       = SysExit "Error: no zfs filesystems" /\
     forall self, gui_filesystem self = filesystem -> gui_props self = props ->
       returns (refresh_tree strftime check_output self) = false) /\
  (forall n, text = blank_lines (S n) ->
     build_treestore strftime check_output filesystem props
       = Ok {| columns := store_columns props; roots := [] |}).
Proof.
  intros Hrun. split.
  - intros ->.
    assert (Hb : build_treestore strftime check_output filesystem props
                 = SysExit "Error: no zfs filesystems").
    { unfold build_treestore. rewrite Hrun. reflexivity. }
    split; [exact Hb|]. split.
    + unfold Gui_init. rewrite Hb. reflexivity.
    + intros self <- <-. unfold refresh_tree.
      destruct (remember_expanded _ _ _ _); [|reflexivity..].
      cbn [bind]. rewrite Hb. reflexivity.
  - intros n ->. unfold build_treestore. rewrite Hrun, str_split_blank_lines.
    rewrite bool_decide_eq_false_2 by discriminate.
    rewrite parse_blank_lines. reflexivity.
Qed.

(** The statement above for a command that prints nothing. *)
Lemma empty_output_witness :
  build_treestore strftime_unused (fun _ => CommandOutput (Some "")) None ["name"]
  = SysExit "Error: no zfs filesystems".
Proof.
  exact (proj1 (proj1 (empty_output strftime_unused
           (fun _ => CommandOutput (Some "")) None ["name"] "" eq_refl) eq_refl)).
Defined.

(** C9 as stated fails on an output of one line end: no record is parsed,
    [build_treestore] returns a store without nodes, and [refresh_tree]
    makes it the model of the view. *)
Lemma blank_output_counterexample :
  let check_output := fun _ : list string => CommandOutput (Some (blank_lines 1)) in
  let old := {| columns := [ColStr]; roots := [Node [GStr "tank"] []] |} in
  let self := {| gui_filesystem := None; gui_props := ["name"]; gui_store := old;
                 gui_tview := {| model := old; expanded := [] |} |} in
  parse_zfs_list_output (str_split newline (blank_lines 1)) (["name"] ++ ["type"])
  = Ok [] /\
  build_treestore strftime_unused check_output None ["name"]
    = Ok {| columns := [ColStr]; roots := [] |} /\
  refresh_tree strftime_unused check_output self
    = Ok {| gui_filesystem := None; gui_props := ["name"]; gui_store := old;
            gui_tview := {| model := {| columns := [ColStr]; roots := [] |};
                            expanded := [] |} |}.
Proof. cbv zeta. split; [|split]; vm_compute; reflexivity. Qed.

(** ** The tree built by [build_treestore] *)

Lemma str_split_nonempty sep s : str_split sep s <> [].
Proof.
  destruct s as [|c s]; [discriminate|]. cbn [str_split].
  destruct (Ascii.eqb c sep); [discriminate|].
  destruct (str_split sep s); discriminate.
Qed.

(** [build_treestore] is its loop, run on the records the parser returns. *)
Lemma build_treestore_parsed strftime check_output filesystem props text records :
  check_output (zfs_command filesystem props) = CommandOutput (Some text) ->
  text <> "" ->
  parse_zfs_list_output (str_split newline text) (props ++ ["type"]) = Ok records ->
  build_treestore strftime check_output filesystem props
  = fill_treestore strftime records props.
Proof.
  intros Hrun Htext Hparse. unfold build_treestore. rewrite Hrun.
  case_bool_decide as Hout; [|by rewrite Hparse].
  destruct text as [|c text]; [done|]. cbn [str_split] in Hout.
  destruct (Ascii.eqb c newline).
  - injection Hout as Hout. by apply str_split_nonempty in Hout.
  - destruct (str_split newline text); discriminate.
Qed.

Lemma convert_row_app cols1 cols2 row1 row2 g1 g2 :
  convert_row cols1 row1 = Ok g1 ->
  convert_row cols2 row2 = Ok g2 ->
  convert_row (cols1 ++ cols2) (row1 ++ row2) = Ok (g1 ++ g2).
Proof.
  revert row1 g1. induction cols1 as [|c cols1 IH]; intros [|v row1] g1 H1 H2;
    cbn [convert_row app] in *; try discriminate.
  - injection H1 as <-. exact H2.
  - destruct (to_gvalue c v) as [g| |]; try discriminate. cbn [bind] in *.
    destruct (convert_row cols1 row1) as [gs| |] eqn:Hgs; try discriminate.
    cbn [bind] in H1. injection H1 as <-.
    rewrite (IH row1 gs Hgs H2). reflexivity.
Qed.

Lemma append_node_root n forest :
  append_node [] n forest = Some (forest ++ [n], [length forest]).
Proof. reflexivity. Qed.

Lemma append_node_last_root n F r ch :
  append_node [length F] n (F ++ [Node r ch])
  = Some (F ++ [Node r (ch ++ [n])], [length F; length ch]).
Proof.
  cbn [append_node]. rewrite list_lookup_middle by reflexivity.
  f_equal. f_equal.
  rewrite insert_app_r_alt by lia. rewrite Nat.sub_diag. reflexivity.
Qed.

Section Hierarchy.
Variable strftime_localtime : Z -> outcome string.
Variable props : list string.

Local Opaque human_readable py_int py_float float_of_int nearest_float.

Lemma float_of_int_0 : float_of_int 0 = Ok (S754_zero false).
Proof. Local Transparent float_of_int nearest_float. reflexivity. Qed.

Local Opaque float_of_int nearest_float.

(** The values of a property fit its columns. *)
Lemma row_values_fit fs prop vs :
  row_values strftime_localtime fs prop = Ok vs ->
  exists gs,
    convert_row (if has_sort_column prop then [ColStr; ColFloat] else [ColStr]) vs
    = Ok gs.
Proof.
  unfold row_values, has_sort_column. intros H.
  destruct (getitem fs prop) as [v| |] eqn:Hv;
    [|repeat case_bool_decide; discriminate..].
  case_bool_decide as Hsize; cbn [bind orb] in *.
  - case_bool_decide.
    + injection H as <-. cbn [convert_row to_gvalue bind].
      rewrite float_of_int_0. eexists. reflexivity.
    + destruct (py_int v) as [n| |]; try discriminate. cbn [bind] in H.
      destruct (human_readable n true) as [s| |]; try discriminate. cbn [bind] in H.
      destruct (py_float v) as [x| |]; try discriminate. cbn [bind] in H.
      injection H as <-. eexists. reflexivity.
  - case_bool_decide as Hcreation; cbn [bind] in *.
    + destruct (py_int v) as [n| |]; try discriminate. cbn [bind] in H.
      destruct (strftime_localtime n) as [s| |]; try discriminate. cbn [bind] in H.
      destruct (py_float v) as [x| |]; try discriminate. cbn [bind] in H.
      injection H as <-. eexists. reflexivity.
    + injection H as <-. eexists. reflexivity.
Qed.

(** A row that could be built fits the columns of the store: the store
    raises neither [TypeError] nor [ValueError]. *)
Lemma build_row_fits fs ps row :
  build_row strftime_localtime fs ps = Ok row ->
  exists g, convert_row (store_columns ps) row = Ok g.
Proof.
  revert row. induction ps as [|p ps IH]; intros row H; cbn [build_row] in H.
  - injection H as <-. eexists. reflexivity.
  - destruct (row_values strftime_localtime fs p) as [vs| |] eqn:Hvs; try discriminate.
    cbn [bind] in H.
    destruct (build_row strftime_localtime fs ps) as [row'| |] eqn:Hrow';
      try discriminate.
    cbn [bind] in H. injection H as <-.
    destruct (row_values_fit _ _ _ Hvs) as [gs Hgs].
    destruct (IH row' eq_refl) as [g' Hg'].
    exists (gs ++ g'). cbn [store_columns]. by apply convert_row_app.
Qed.

Lemma stored_row_returns fs :
  returns (stored_row strftime_localtime props fs)
  = returns (build_row strftime_localtime fs props).
Proof.
  unfold stored_row.
  destruct (build_row strftime_localtime fs props) as [row| |] eqn:Hrow; try reflexivity.
  destruct (build_row_fits _ _ _ Hrow) as [g Hg]. cbn [bind]. by rewrite Hg.
Qed.

Lemma last_root_snoc F n : last_root (F ++ [n]) = Some [length F].
Proof.
  unfold last_root. destruct (F ++ [n]) eqn:E.
  - by destruct F.
  - rewrite <- E, length_app. cbn [length]. do 3 f_equal. lia.
Qed.

Lemma forest_snoc_inv (forest : list TreeNode) :
  forest = [] \/ exists F r ch, forest = F ++ [Node r ch].
Proof.
  induction forest as [|n F _] using rev_ind; [by left|right].
  destruct n as [r ch]. eauto.
Qed.

Lemma add_record_filesystem forest fs :
  is_filesystem fs ->
  add_record strftime_localtime props (state_of props forest) fs =
  do g <- stored_row strftime_localtime props fs;
  Ok (state_of props (forest ++ [Node g []])).
Proof.
  intros Hfs. unfold add_record, state_of, stored_row.
  destruct (build_row strftime_localtime fs props) as [row| |] eqn:Hrow; try reflexivity.
  destruct (build_row_fits _ _ _ Hrow) as [g Hg]. cbn [bind].
  unfold getitem. rewrite Hfs. cbn [bind].
  rewrite bool_decide_eq_true_2 by reflexivity.
  unfold TreeStore_append. cbn [columns roots].
  change (default [] None) with (@nil nat).
  rewrite Hg. cbn [bind]. rewrite append_node_root, last_root_snoc. reflexivity.
Qed.

Lemma add_record_snapshot F r ch fs :
  is_snapshot fs ->
  add_record strftime_localtime props (state_of props (F ++ [Node r ch])) fs =
  do g <- stored_row strftime_localtime props fs;
  Ok (state_of props (F ++ [Node r (ch ++ [Node g []])])).
Proof.
  intros Hsn. unfold add_record, state_of, stored_row.
  destruct (build_row strftime_localtime fs props) as [row| |] eqn:Hrow; try reflexivity.
  destruct (build_row_fits _ _ _ Hrow) as [g Hg]. cbn [bind].
  unfold getitem. rewrite Hsn. cbn [bind].
  rewrite bool_decide_eq_false_2 by discriminate.
  rewrite bool_decide_eq_true_2 by reflexivity.
  rewrite !last_root_snoc.
  unfold TreeStore_append. cbn [columns roots].
  change (default [] (Some [length F])) with [length F].
  rewrite Hg. cbn [bind]. rewrite append_node_last_root, last_root_snoc.
  reflexivity.
Qed.

Lemma add_record_snapshot_unbound store fs :
  is_snapshot fs ->
  add_record strftime_localtime props (store, None) fs =
  do row <- build_row strftime_localtime fs props; Raise UnboundLocalError.
Proof.
  intros Hsn. unfold add_record.
  destruct (build_row strftime_localtime fs props) as [row| |]; try reflexivity.
  cbn [bind]. unfold getitem. rewrite Hsn. cbn [bind].
  rewrite bool_decide_eq_false_2 by discriminate.
  rewrite bool_decide_eq_true_2 by reflexivity. reflexivity.
Qed.

Lemma add_record_other st fs ty :
  fs !! "type" = Some ty -> ty <> "filesystem" -> ty <> "snapshot" ->
  add_record strftime_localtime props st fs =
  do row <- build_row strftime_localtime fs props; Ok st.
Proof.
  intros Hty Hnf Hns. unfold add_record. destruct st as [store parent].
  destruct (build_row strftime_localtime fs props) as [row| |]; try reflexivity.
  cbn [bind]. unfold getitem. rewrite Hty. cbn [bind].
  rewrite !bool_decide_eq_false_2 by assumption. reflexivity.
Qed.

Lemma add_records_app st l1 l2 :
  add_records strftime_localtime props st (l1 ++ l2) =
  do st' <- add_records strftime_localtime props st l1;
  add_records strftime_localtime props st' l2.
Proof.
  revert st. induction l1 as [|fs l1 IH]; intros st; [reflexivity|].
  cbn [app add_records].
  destruct (add_record strftime_localtime props st fs) as [st'| |]; try reflexivity.
  cbn [bind]. apply IH.
Qed.

Lemma adopt_snoc F r ch cs : adopt (F ++ [Node r ch]) cs = F ++ [Node r (ch ++ cs)].
Proof. unfold adopt. rewrite reverse_snoc, reverse_involutive. reflexivity. Qed.

Lemma adopt_nil forest : adopt forest [] = forest.
Proof.
  destruct (forest_snoc_inv forest) as [->|(F & r & ch & ->)]; [reflexivity|].
  rewrite adopt_snoc, app_nil_r. reflexivity.
Qed.

(** What the loop does to the forest, from any state it can reach. *)
Lemma add_records_forest forest records st :
  add_records strftime_localtime props (state_of props forest) records = Ok st ->
  exists cs news,
    st = state_of props (adopt forest cs ++ news) /\
    Forall2 (child_of strftime_localtime props) cs
      (snapshots_until_filesystem records) /\
    Forall2 (root_of strftime_localtime props) news (ownership records).
Proof.
  revert forest st. induction records as [|fs records IH]; intros forest st Hrun.
  - injection Hrun as <-. exists [], []. rewrite adopt_nil, app_nil_r.
    repeat split; constructor.
  - cbn [add_records] in Hrun. cbn [snapshots_until_filesystem ownership].
    destruct (decide (is_filesystem fs)) as [Hfs|Hnfs].
    + rewrite add_record_filesystem in Hrun by exact Hfs.
      destruct (stored_row strftime_localtime props fs) as [g| |] eqn:Hg; try discriminate.
      cbn [bind] in Hrun.
      destruct (IH _ _ Hrun) as (cs & news & -> & Hcs & Hnews).
      exists [], (Node g cs :: news). rewrite adopt_nil, adopt_snoc.
      split; [by rewrite <- app_assoc|]. split; [constructor|].
      constructor; [|exact Hnews]. split; [exact Hg|exact Hcs].
    + destruct (decide (is_snapshot fs)) as [Hsn|Hnsn].
      * destruct (forest_snoc_inv forest) as [->|(F & r & ch & ->)].
        { unfold state_of in Hrun. cbn [last_root] in Hrun.
          rewrite add_record_snapshot_unbound in Hrun by exact Hsn.
          destruct (build_row strftime_localtime fs props); discriminate. }
        rewrite add_record_snapshot in Hrun by exact Hsn.
        destruct (stored_row strftime_localtime props fs) as [g| |] eqn:Hg; try discriminate.
        cbn [bind] in Hrun.
        destruct (IH _ _ Hrun) as (cs & news & -> & Hcs & Hnews).
        exists (Node g [] :: cs), news. rewrite !adopt_snoc.
        rewrite <- (app_assoc ch [Node g []] cs).
        split; [reflexivity|]. split; [|exact Hnews].
        constructor; [|exact Hcs]. split; [exact Hg|reflexivity].
      * destruct (fs !! "type") as [ty|] eqn:Hty.
        -- rewrite (add_record_other _ _ ty) in Hrun; [|exact Hty|..].
           ++ destruct (build_row strftime_localtime fs props); try discriminate.
              cbn [bind] in Hrun. exact (IH _ _ Hrun).
           ++ intros ->. exact (Hnfs Hty).
           ++ intros ->. exact (Hnsn Hty).
        -- unfold add_record, state_of, getitem in Hrun. rewrite Hty in Hrun.
           destruct (build_row strftime_localtime fs props); discriminate.
Qed.

Lemma ownership_filesystems records :
  (ownership records).*1 = filter is_filesystem records.
Proof.
  induction records as [|r records IH]; [reflexivity|].
  cbn [ownership]. rewrite filter_cons.
  destruct (decide (is_filesystem r)); [cbn [fmap list_fmap fst]|]; by rewrite <- IH.
Qed.

Lemma snapshots_until_filesystem_run mid post :
  Forall (fun r => ~ is_filesystem r) mid ->
  post = [] \/ (exists f post', post = f :: post' /\ is_filesystem f) ->
  snapshots_until_filesystem (mid ++ post) = filter is_snapshot mid.
Proof.
  intros Hmid Hpost. induction Hmid as [|r mid Hr _ IH].
  - destruct Hpost as [->|(f & post' & -> & Hf)]; [reflexivity|].
    cbn [app snapshots_until_filesystem]. by rewrite decide_True.
  - cbn [app snapshots_until_filesystem]. rewrite decide_False by exact Hr.
    rewrite filter_cons, IH. by destruct (decide (is_snapshot r)).
Qed.

Lemma ownership_lookup pre f rest :
  is_filesystem f ->
  ownership (pre ++ f :: rest) !! length (filter is_filesystem pre)
  = Some (f, snapshots_until_filesystem rest).
Proof.
  intros Hf. induction pre as [|p pre IH].
  - cbn [app ownership]. by rewrite decide_True.
  - cbn [app ownership]. rewrite filter_cons.
    destruct (decide (is_filesystem p)); exact IH.
Qed.

(** C4: when [build_treestore]'s loop returns a store, its top-level
    nodes are the filesystem records in input order (each node has the
    row of its record); the children of each are the snapshot records
    that follow it up to the next filesystem record, in arrival order,
    and have no children of their own.  The last part says the same
    through a split of the input around one filesystem record. *)
Theorem build_hierarchy filesystems store :
  fill_treestore strftime_localtime filesystems props = Ok store ->
  Forall2 (root_of strftime_localtime props) (roots store)
    (ownership filesystems) /\
  Forall2 (fun n fs => stored_row strftime_localtime props fs = Ok (node_row n))
    (roots store) (filter is_filesystem filesystems) /\
  Forall (fun n => Forall (fun c => node_children c = []) (node_children n))
    (roots store) /\
  (forall pre f mid post,
     filesystems = pre ++ f :: mid ++ post ->
     is_filesystem f ->
     Forall (fun r => ~ is_filesystem r) mid ->
     post = [] \/ (exists f' post', post = f' :: post' /\ is_filesystem f') ->
     exists n,
       roots store !! length (filter is_filesystem pre) = Some n /\
       stored_row strftime_localtime props f = Ok (node_row n) /\
       Forall2 (child_of strftime_localtime props) (node_children n)
         (filter is_snapshot mid)).
Proof.
  unfold fill_treestore. intros Hrun.
  destruct (add_records _ _ _ _) as [st| |] eqn:Hst; try discriminate.
  cbn [bind] in Hrun. injection Hrun as <-.
  apply (add_records_forest []) in Hst as (cs & news & -> & _ & Hroots).
  change (adopt [] cs) with (@nil TreeNode) in *.
  cbn [app state_of fst roots].
  split; [exact Hroots|]. split; [|split].
  - rewrite <- ownership_filesystems. apply Forall2_fmap_r.
    eapply Forall2_impl; [exact Hroots|]. by intros n g [Hrow _].
  - clear -Hroots. induction Hroots as [|n g news owners [_ Hch] _ IH]; constructor.
    + clear -Hch. induction Hch as [|c s cs ss [_ Hc] _ IH]; by constructor.
    + exact IH.
  - intros pre f mid post -> Hf Hmid Hpost.
    pose proof (ownership_lookup pre f (mid ++ post) Hf) as Hown.
    rewrite (snapshots_until_filesystem_run mid post Hmid Hpost) in Hown.
    destruct (Forall2_lookup_r _ _ _ _ _ Hroots Hown) as (n & Hn & Hrow & Hch).
    exists n. by repeat split.
Qed.

(** Without a filesystem record, a successful run leaves the state as it
    was at the start. *)
Lemma add_records_unowned store pre st :
  Forall (fun r => ~ is_filesystem r) pre ->
  add_records strftime_localtime props (store, None) pre = Ok st ->
  st = (store, None).
Proof.
  intros Hpre. induction Hpre as [|r pre Hr _ IH]; intros Hrun.
  - by injection Hrun.
  - cbn [add_records] in Hrun.
    destruct (decide (is_snapshot r)) as [Hsn|Hnsn].
    + rewrite add_record_snapshot_unbound in Hrun by exact Hsn.
      destruct (build_row strftime_localtime r props); discriminate.
    + destruct (r !! "type") as [ty|] eqn:Hty.
      * rewrite (add_record_other _ _ ty) in Hrun; [|exact Hty|..].
        -- destruct (build_row strftime_localtime r props); try discriminate.
           exact (IH Hrun).
        -- intros ->. exact (Hr Hty).
        -- intros ->. exact (Hnsn Hty).
      * unfold add_record, getitem in Hrun. rewrite Hty in Hrun.
        destruct (build_row strftime_localtime r props); discriminate.
Qed.

(** With rows that can be built, the records before the first filesystem
    record that are not snapshots are passed over. *)
Lemma add_records_skipped st pre :
  Forall (fun r => ~ is_filesystem r /\ ~ is_snapshot r /\ is_Some (r !! "type") /\
                   returns (build_row strftime_localtime r props) = true) pre ->
  add_records strftime_localtime props st pre = Ok st.
Proof.
  induction 1 as [|r pre (Hnf & Hns & [ty Hty] & Hrow) _ IH]; [reflexivity|].
  cbn [add_records]. rewrite (add_record_other _ _ ty); [|exact Hty|..].
  - destruct (build_row strftime_localtime r props); try discriminate. exact IH.
  - intros ->. exact (Hnf Hty).
  - intros ->. exact (Hns Hty).
Qed.

(** C5: when the first snapshot record comes before any filesystem
    record, the loop of [build_treestore] does not return a store; it
    fails at that record with [UnboundLocalError] ([parent] has no
    value), unless building the row of that record or of an earlier one
    has failed already. *)
Theorem snapshot_before_filesystem pre snap rest :
  Forall (fun r => ~ is_filesystem r /\ ~ is_snapshot r) pre ->
  is_snapshot snap ->
  returns (fill_treestore strftime_localtime (pre ++ snap :: rest) props) = false /\
  (Forall (fun r => is_Some (r !! "type") /\
                    returns (build_row strftime_localtime r props) = true) pre ->
   returns (build_row strftime_localtime snap props) = true ->
   fill_treestore strftime_localtime (pre ++ snap :: rest) props
   = Raise UnboundLocalError).
Proof.
  intros Hpre Hsn. unfold fill_treestore. rewrite add_records_app. split.
  - destruct (add_records _ _ _ pre) as [st| |] eqn:Hst; try reflexivity.
    apply add_records_unowned in Hst as ->.
    + cbn [bind add_records]. rewrite add_record_snapshot_unbound by exact Hsn.
      by destruct (build_row strftime_localtime snap props).
    + eapply Forall_impl; [exact Hpre|]. by intros r [Hnf _].
  - intros Hrows Hrow. rewrite add_records_skipped.
    + cbn [bind add_records]. rewrite add_record_snapshot_unbound by exact Hsn.
      by destruct (build_row strftime_localtime snap props).
    + apply Forall_forall. intros r Hr.
      rewrite Forall_forall in Hpre, Hrows.
      destruct (Hpre r Hr), (Hrows r Hr). by repeat split.
Qed.

(** C10: a record whose kind is neither [filesystem] nor [snapshot] never
    changes the store or [parent]; when its row can be built it is passed
    over, and the tree is the one built from the records without it, so a
    later snapshot goes to the filesystem record before it. *)
Theorem other_kind_dropped fs ty :
  fs !! "type" = Some ty -> ty <> "filesystem" -> ty <> "snapshot" ->
  (forall st st', add_record strftime_localtime props st fs = Ok st' -> st' = st) /\
  (returns (build_row strftime_localtime fs props) = true ->
   (forall st, add_record strftime_localtime props st fs = Ok st) /\
   (forall pre post,
      fill_treestore strftime_localtime (pre ++ fs :: post) props
      = fill_treestore strftime_localtime (pre ++ post) props)).
Proof.
  intros Hty Hnf Hns.
  assert (Hstep : forall st, add_record strftime_localtime props st fs =
            do row <- build_row strftime_localtime fs props; Ok st)
    by (intros st; by apply (add_record_other st fs ty)).
  split.
  - intros st st' H. rewrite Hstep in H.
    destruct (build_row strftime_localtime fs props); try discriminate.
    by injection H.
  - intros Hrow.
    assert (Hskip : forall st, add_record strftime_localtime props st fs = Ok st).
    { intros st. rewrite Hstep.
      by destruct (build_row strftime_localtime fs props). }
    split; [exact Hskip|]. intros pre post. unfold fill_treestore.
    rewrite !add_records_app.
    destruct (add_records _ _ _ pre) as [st| |]; try reflexivity.
    cbn [bind add_records]. rewrite Hskip. reflexivity.
Qed.
End Hierarchy.

(** [build_hierarchy] at the sample. *)
Lemma build_hierarchy_witness :
  Forall2 (root_of strftime_unused ["name"; "used"])
    (roots sample_store) (ownership sample_records).
Proof.
  exact (proj1 (build_hierarchy strftime_unused ["name"; "used"]
                  sample_records sample_store ltac:(vm_compute; reflexivity))).
Defined.

(** [snapshot_before_filesystem] at a volume followed by a snapshot. *)
Lemma snapshot_before_filesystem_witness :
  fill_treestore strftime_unused
    ([record "tank/vol" "2048" "volume"]
     ++ record "tank@a" "0" "snapshot" :: [record "tank" "10240" "filesystem"])
    ["name"; "used"]
  = Raise UnboundLocalError.
Proof.
  refine (proj2 (snapshot_before_filesystem strftime_unused ["name"; "used"]
            [record "tank/vol" "2048" "volume"] (record "tank@a" "0" "snapshot")
            [record "tank" "10240" "filesystem"] _ _) _ _).
  - constructor; [|constructor].
    split; intros H; vm_compute in H; discriminate H.
  - vm_compute. reflexivity.
  - constructor; [|constructor]. split; [|vm_compute; reflexivity].
    exists "volume". vm_compute. reflexivity.
  - vm_compute. reflexivity.
Defined.

(** [other_kind_dropped] at the volume of the sample. *)
Lemma other_kind_dropped_witness :
  fill_treestore strftime_unused
    ([record "tank" "10240" "filesystem"]
     ++ record "tank/vol" "2048" "volume" :: [record "tank@b" "-" "snapshot"])
    ["name"; "used"]
  = fill_treestore strftime_unused
      ([record "tank" "10240" "filesystem"] ++ [record "tank@b" "-" "snapshot"])
      ["name"; "used"].
Proof.
  refine (proj2 (proj2 (other_kind_dropped strftime_unused ["name"; "used"]
            (record "tank/vol" "2048" "volume") "volume" _ _ _) _) _ _).
  - vm_compute. reflexivity.
  - discriminate.
  - discriminate.
  - vm_compute. reflexivity.
Defined.

(** ** Size columns *)

Lemma digits2_pos_lower p : 2 ^ (Z.pos (digits2_pos p) - 1) <= Z.pos p.
Proof.
  induction p as [p IH|p IH|]; cbn [digits2_pos]; [| |done].
  - rewrite Pos2Z.inj_succ. replace (Z.succ (Z.pos (digits2_pos p)) - 1)
      with (Z.succ (Z.pos (digits2_pos p) - 1)) by lia.
    rewrite Z.pow_succ_r by lia. lia.
  - rewrite Pos2Z.inj_succ. replace (Z.succ (Z.pos (digits2_pos p)) - 1)
      with (Z.succ (Z.pos (digits2_pos p) - 1)) by lia.
    rewrite Z.pow_succ_r by lia. lia.
Qed.

Lemma digits2_pos_small p : Z.pos p < 2 ^ 53 -> Z.pos (digits2_pos p) <= 53.
Proof.
  intros Hp. destruct (Z.le_gt_cases (Z.pos (digits2_pos p)) 53) as [|Hgt]; [done|].
  pose proof (digits2_pos_lower p) as Hlow.
  assert (2 ^ 53 <= 2 ^ (Z.pos (digits2_pos p) - 1)) by (apply Z.pow_le_mono_r; lia).
  lia.
Qed.

Lemma iter_xO_digits p k :
  digits2_pos (Pos.iter xO p k) = (digits2_pos p + k)%positive.
Proof.
  induction k as [|k IH] using Pos.peano_ind.
  - cbn. lia.
  - rewrite Pos.iter_succ. cbn [digits2_pos]. rewrite IH. lia.
Qed.

Lemma iter_xO_value p k : Z.pos (Pos.iter xO p k) = Z.pos p * 2 ^ Z.pos k.
Proof.
  induction k as [|k IH] using Pos.peano_ind.
  - cbn [Pos.iter]. lia.
  - rewrite Pos.iter_succ, Pos2Z.inj_xO, IH, Pos2Z.inj_succ, Z.pow_succ_r by lia. lia.
Qed.

(** A mantissa of full width is kept as it is. *)
Lemma binary_round_aux_exact s m e :
  Z.pos (digits2_pos m) = 53 -> -52 <= e <= 971 ->
  binary_round_aux prec emax s (Z.pos m) e loc_Exact = S754_finite s m e.
Proof.
  intros Hd He. unfold binary_round_aux, shr_fexp, fexp, emin, prec, emax.
  cbn [Zdigits2 shr_record_of_loc]. rewrite Hd.
  replace (Z.max (53 + e - 53) (3 - 1024 - 53) - e) with 0 by lia.
  cbn [shr shr_m loc_of_shr_record round_nearest_even Zdigits2 shr_record_of_loc].
  rewrite Hd.
  replace (Z.max (53 + e - 53) (3 - 1024 - 53) - e) with 0 by lia.
  cbn [shr shr_m].
  destruct (Z.leb_spec e (1024 - 53)); [reflexivity|lia].
Qed.

Lemma nearest_float_small p :
  Z.pos p < 2 ^ 53 ->
  exists m e, nearest_float (Z.pos p) = S754_finite false m e /\
              e <= 0 /\ Z.pos m = Z.pos p * 2 ^ (- e).
Proof.
  intros Hp. pose proof (digits2_pos_small p Hp) as Hd.
  unfold nearest_float, binary_normalize, binary_round, shl_align, fexp, emin, prec, emax.
  replace (Z.max (Z.pos (digits2_pos p) + 0 - 53) (3 - 1024 - 53) - 0)
    with (Z.pos (digits2_pos p) - 53) by lia.
  replace (Z.max (Z.pos (digits2_pos p) + 0 - 53) (3 - 1024 - 53))
    with (Z.pos (digits2_pos p) - 53) by lia.
  destruct (Z.pos (digits2_pos p) - 53) as [|k|k] eqn:Hk; [|lia|].
  - exists p, 0. split; [|split; [lia|cbn; lia]].
    fold prec emax. apply binary_round_aux_exact; lia.
  - exists (Pos.iter xO p k), (Z.neg k). split; [|split; [lia|]].
    + fold prec emax. apply binary_round_aux_exact; [|lia].
      rewrite iter_xO_digits. lia.
    + rewrite iter_xO_value. reflexivity.
Qed.

Lemma nearest_float_exact n :
  0 <= n <= 2 ^ 53 -> float_is_int (nearest_float n) n = true.
Proof.
  intros Hn. destruct (Z.eq_dec n (2 ^ 53)) as [->|Hne]; [vm_compute; reflexivity|].
  destruct n as [|p|p]; [reflexivity| |lia].
  destruct (nearest_float_small p) as (m & e & -> & He & Hm); [lia|].
  unfold float_is_int, cond_Zopp.
  destruct (Z.leb_spec 0 e).
  - replace e with 0 in * by lia. change (2 ^ (- 0)) with 1 in Hm. change (2 ^ 0) with 1.
    apply Z.eqb_eq. lia.
  - apply Z.eqb_eq. exact Hm.
Qed.

Lemma float_of_int_small n :
  0 <= n <= 2 ^ 53 -> float_of_int n = Ok (nearest_float n).
Proof.
  intros Hn. unfold float_of_int.
  destruct (Z.eq_dec n (2 ^ 53)) as [->|Hne]; [vm_compute; reflexivity|].
  destruct n as [|p|p]; [reflexivity| |lia].
  destruct (nearest_float_small p) as (m & e & -> & _); [lia|]. reflexivity.
Qed.

(** ** Reading back a printed integer *)

Lemma lstrip_digits u : lstrip (NilEmpty.string_of_uint u) = NilEmpty.string_of_uint u.
Proof. destruct u; reflexivity. Qed.

Lemma rstrip_digits u : rstrip (NilEmpty.string_of_uint u) = NilEmpty.string_of_uint u.
Proof.
  induction u as [|u IH|u IH|u IH|u IH|u IH|u IH|u IH|u IH|u IH|u IH];
    [reflexivity|..]; cbn [NilEmpty.string_of_uint rstrip]; rewrite IH;
    by destruct (NilEmpty.string_of_uint u).
Qed.

Lemma int_digits_printed u :
  int_digits (NilEmpty.string_of_uint u) true = Some u.
Proof.
  induction u as [|u IH|u IH|u IH|u IH|u IH|u IH|u IH|u IH|u IH|u IH];
    [reflexivity|..]; cbn [NilEmpty.string_of_uint int_digits];
    cbn [Ascii.eqb Bool.eqb digit_of]; by rewrite IH.
Qed.

Lemma int_digits_printed_first u :
  u <> Decimal.Nil -> int_digits (NilEmpty.string_of_uint u) false = Some u.
Proof.
  intros Hu. destruct u; [done|..]; cbn [NilEmpty.string_of_uint int_digits];
    cbn [Ascii.eqb Bool.eqb digit_of]; by rewrite int_digits_printed.
Qed.

Lemma py_int_digits u :
  u <> Decimal.Nil ->
  py_int (NilEmpty.string_of_uint u) = Ok (Z.of_N (N.of_uint u)).
Proof.
  intros Hu. unfold py_int, strip. rewrite lstrip_digits, rstrip_digits.
  assert (Hsign : match NilEmpty.string_of_uint u with
                  | String "-"%char r => (true, r)
                  | String "+"%char r => (false, r)
                  | _ => (false, NilEmpty.string_of_uint u)
                  end = (false, NilEmpty.string_of_uint u))
    by (destruct u; reflexivity).
  rewrite Hsign, int_digits_printed_first by exact Hu. reflexivity.
Qed.

(** [int(str(n)) == n] for a non-negative [n]. *)
Lemma py_int_str_of_int n : 0 <= n -> py_int (str_of_int n) = Ok n.
Proof.
  intros Hn. destruct n as [|p|p]; [reflexivity| |lia].
  unfold str_of_int. cbn [Z.to_int NilZero.string_of_int NilZero.string_of_uint].
  pose proof (DecimalPos.Unsigned.to_uint_nonnil p) as Hnil.
  assert (Hs : NilZero.string_of_uint (Pos.to_uint p)
               = NilEmpty.string_of_uint (Pos.to_uint p))
    by (unfold NilZero.string_of_uint; by destruct (Pos.to_uint p)).
  rewrite Hs, py_int_digits by exact Hnil.
  change (N.of_uint (Pos.to_uint p)) with (Pos.of_uint (Pos.to_uint p)).
  rewrite DecimalPos.Unsigned.of_to. reflexivity.
Qed.

Lemma str_of_int_not_dash n : 0 <= n -> str_of_int n <> "-".
Proof.
  intros Hn Heq. pose proof (py_int_str_of_int n Hn) as H.
  rewrite Heq in H. discriminate H.
Qed.

(** C6, as the code has it: a size property contributes two adjacent
    values.  For the field ['-'] they are ['-'] and the integer 0, stored
    as [0.0].  For the decimal text of a non-negative integer [n] they are
    the binary-mode [human_readable] string and the float nearest to [n];
    nothing is produced when [human_readable] fails, which happens only
    when [n] is too large for a float.  The sort key is exactly [n] for
    every [n] up to [2^53]. *)
Theorem size_property_values strftime fs prop :
  prop ∈ SIZE_PROPERTIES ->
  (fs !! prop = Some "-" ->
     row_values strftime fs prop = Ok [VStr "-"; VInt 0] /\
     convert_row [ColStr; ColFloat] [VStr "-"; VInt 0]
     = Ok [GStr "-"; GDouble (S754_zero false)]) /\
  (forall n, 0 <= n -> fs !! prop = Some (str_of_int n) ->
     (forall e, human_readable n true = Raise e ->
        row_values strftime fs prop = Raise e) /\
     (forall display, human_readable n true = Ok display ->
        row_values strftime fs prop = Ok [VStr display; VFloat (nearest_float n)] /\
        convert_row [ColStr; ColFloat] [VStr display; VFloat (nearest_float n)]
        = Ok [GStr display; GDouble (nearest_float n)]) /\
     (returns (float_of_int n) = true -> returns (human_readable n true) = true) /\
     (n <= 2 ^ 53 ->
        returns (human_readable n true) = true /\
        float_is_int (nearest_float n) n = true)).
Proof.
  intros Hsize. unfold row_values, getitem.
  rewrite bool_decide_eq_true_2 by exact Hsize. split.
  - intros ->. cbn [bind]. rewrite bool_decide_eq_true_2 by reflexivity.
    split; reflexivity.
  - intros n Hn ->. cbn [bind].
    rewrite bool_decide_eq_false_2 by (by apply str_of_int_not_dash).
    unfold py_float. rewrite py_int_str_of_int by exact Hn. cbn [bind].
    split; [|split; [|split]].
    + intros e ->. reflexivity.
    + intros display ->. split; reflexivity.
    + apply human_readable_returns.
    + intros Hsmall. split.
      * apply human_readable_returns. by rewrite float_of_int_small.
      * by apply nearest_float_exact.
Qed.

(** The statement above for a [used] field of 10240 bytes. *)
Lemma size_property_values_witness :
  row_values strftime_unused (record "tank" "10240" "filesystem") "used"
  = Ok [VStr "10.0K"; VFloat (nearest_float 10240)] /\
  float_is_int (nearest_float 10240) 10240 = true.
Proof.
  pose proof (proj2 (size_property_values strftime_unused
                (record "tank" "10240" "filesystem") "used"
                ltac:(vm_compute; apply list_elem_of_here))
                10240 ltac:(lia) ltac:(vm_compute; reflexivity))
    as (_ & Hrow & _ & Hkey).
  split.
  - exact (proj1 (Hrow "10.0K" ltac:(vm_compute; reflexivity))).
  - exact (proj2 (Hkey ltac:(lia))).
Defined.

(** C6 as stated fails at [n = 2^53 + 1]: the sort key is the float
    [2^53], not [n]. *)
Lemma size_sort_key_counterexample :
  let n := 2 ^ 53 + 1 in
  let fs := record "tank" (str_of_int n) "filesystem" in
  str_of_int n = "9007199254740993" /\
  row_values strftime_unused fs "used"
  = Ok [VStr "8.00P"; VFloat (nearest_float (2 ^ 53))] /\
  float_is_int (nearest_float (2 ^ 53)) n = false /\
  float_is_int (nearest_float (2 ^ 53)) (2 ^ 53) = true.
Proof. cbv zeta. repeat split; vm_compute; reflexivity. Qed.

(** ** [refresh_tree] *)

(** The store the two loops of [refresh_tree] go through stays the one the
    [Gui] was made with. *)
Lemma refresh_tree_keeps_store strftime check_output self self' :
  refresh_tree strftime check_output self = Ok self' ->
  gui_store self' = gui_store self.
Proof.
  unfold refresh_tree. intros H.
  destruct (remember_expanded _ _ _ _); try discriminate. cbn [bind] in H.
  destruct (build_treestore _ _ _ _); try discriminate. cbn [bind] in H.
  destruct (expand_remembered _ _ _ _); try discriminate. cbn [bind] in H.
  by injection H as <-.
Qed.

Lemma expand_row_expanded tv i k :
  k ∈ expanded (expand_row tv i) -> k ∈ expanded tv \/ k = i.
Proof.
  unfold expand_row. destruct (roots (model tv) !! i) as [[r [|c ch]]|]; [by left| |by left].
  destruct (row_expanded tv i); [by left|]. cbn [expanded].
  intros [Hk|Hk%list_elem_of_singleton]%elem_of_app; [by left|by right].
Qed.

(** The last loop expands positions of the view, chosen by the names found
    at these positions in the list it goes through. *)
Lemma expand_remembered_positions tv i rows names tv' k :
  expand_remembered tv i rows names = Ok tv' ->
  k ∈ expanded tv' ->
  k ∈ expanded tv \/
  exists j row name, k = (i + j)%nat /\ rows !! j = Some row /\
                     row_first row = Ok name /\ name ∈ names.
Proof.
  revert tv i. induction rows as [|row rows IH]; intros tv i Hrun Hk.
  - injection Hrun as <-. by left.
  - cbn [expand_remembered] in Hrun.
    destruct (row_first row) as [name| |] eqn:Hname; try discriminate.
    cbn [bind] in Hrun. case_bool_decide as Hin.
    + destruct (IH _ _ Hrun Hk) as [Hold|(j & row' & name' & -> & Hj & Hrow' & Hin')].
      * apply expand_row_expanded in Hold as [Hold| ->]; [by left|].
        right. exists 0%nat, row, name. repeat split; [lia|done..].
      * right. exists (S j), row', name'. repeat split; [lia|done..].
    + destruct (IH _ _ Hrun Hk) as [Hold|(j & row' & name' & -> & Hj & Hrow' & Hin')].
      * by left.
      * right. exists (S j), row', name'. repeat split; [lia|done..].
Qed.

(** C1 does not hold of [refresh_tree]: with [tank/b] expanded (row 1)
    and [tank/a] created before the refresh, the row expanded afterwards
    is row 1 of the new tree, [tank/a]; [tank/b], now row 2, is not. *)
Theorem refresh_tree_expands_position :
  exists before after,
    Gui_init strftime_unused (fun _ => CommandOutput (Some listing_before))
      None ["name"] = Ok before /\
    expanded_names (gui_tview (user_expands 1 before)) = [Ok (GStr "tank/b")] /\
    refresh_tree strftime_unused (fun _ => CommandOutput (Some listing_after))
      (user_expands 1 before) = Ok after /\
    node_row <$> roots (model (gui_tview after))
      = [[GStr "tank"]; [GStr "tank/a"]; [GStr "tank/b"]] /\
    expanded (gui_tview after) = [1%nat] /\
    expanded_names (gui_tview after) = [Ok (GStr "tank/a")].
Proof.
  eexists _, _. split; [vm_compute; reflexivity|].
  split; [vm_compute; reflexivity|].
  split; [vm_compute; reflexivity|].
  repeat split; vm_compute; reflexivity.
Qed.

(** * Further properties *)

(** ** Lines and records *)

(** X1: empty lines are skipped wherever they stand: the parser gives the
    same result on the non-empty lines alone, and on success one record
    per non-empty line. *)
Theorem parse_skips_empty_lines lines props :
  parse_zfs_list_output lines props
  = parse_zfs_list_output (filter (fun l => l <> "") lines) props /\
  (forall records, parse_zfs_list_output lines props = Ok records ->
     length records = length (filter (fun l => l <> "") lines)).
Proof.
  split.
  - induction lines as [|l lines IH]; [reflexivity|].
    rewrite filter_cons. cbn [parse_zfs_list_output].
    case_bool_decide as Hl.
    + rewrite decide_False by (intros H; by apply H). exact IH.
    + rewrite decide_True by exact Hl. cbn [parse_zfs_list_output].
      rewrite bool_decide_eq_false_2 by exact Hl. by rewrite IH.
  - induction lines as [|l lines IH]; intros records H.
    + by injection H as <-.
    + rewrite filter_cons. cbn [parse_zfs_list_output] in H.
      case_bool_decide as Hl.
      * rewrite decide_False by (intros H'; by apply H'). by apply IH.
      * rewrite decide_True by exact Hl.
        destruct (fill_props _ _ _ _); try discriminate. cbn [bind] in H.
        destruct (parse_zfs_list_output lines props) as [rs| |]; try discriminate.
        cbn [bind] in H. injection H as <-. cbn [length]. f_equal. by apply IH.
Qed.

(** The keys and values [fill_props] leaves in the dictionary. *)
Lemma fill_props_lookup line i props d d' k :
  fill_props line i props d = Ok d' ->
  (k ∉ props -> d' !! k = d !! k) /\
  (forall j, props !! j = Some k ->
     (forall j', (j < j')%nat -> props !! j' <> Some k) ->
     d' !! k = line !! (i + j)%nat).
Proof.
  revert i d. induction props as [|p props IH]; intros i d H.
  - injection H as <-. split; [done|]. intros j Hj. by destruct j.
  - cbn [fill_props] in H. destruct (line !! i) as [v|] eqn:Hv; [|discriminate].
    destruct (IH _ _ H) as [IHout IHin]. split.
    + intros Hk. apply not_elem_of_cons in Hk as [Hne Hk].
      rewrite IHout by exact Hk. by apply lookup_insert_ne.
    + intros [|j] Hj Hlast.
      * injection Hj as ->. rewrite IHout.
        -- rewrite lookup_insert_eq, Nat.add_0_r. by symmetry.
        -- intros Hin. apply list_elem_of_lookup in Hin as [j' Hj'].
           apply (Hlast (S j')); [lia|exact Hj'].
      * rewrite (IHin j Hj).
        -- f_equal. lia.
        -- intros j' Hlt. apply (Hlast (S j')). lia.
Qed.

(** X2: a record has exactly the schema's names as keys, and under each
    name the field at the name's position in the line; for a name that is
    listed more than once, its last position. *)
Theorem parse_record_fields line props records :
  parse_zfs_list_output [line] props = Ok records ->
  line <> "" ->
  exists d, records = [d] /\
    (forall k, is_Some (d !! k) <-> k ∈ props) /\
    (forall j k, props !! j = Some k ->
       (forall j', (j < j')%nat -> props !! j' <> Some k) ->
       d !! k = str_split tab line !! j).
Proof.
  intros H Hne. cbn [parse_zfs_list_output] in H.
  rewrite bool_decide_eq_false_2 in H by exact Hne.
  destruct (fill_props _ _ _ _) as [d| |] eqn:Hd; try discriminate.
  cbn [bind] in H. injection H as <-. exists d. split; [reflexivity|]. split.
  - intros k. split.
    + intros Hk. destruct (decide (k ∈ props)) as [|Hnot]; [done|].
      rewrite (proj1 (fill_props_lookup _ _ _ _ _ k Hd) Hnot), lookup_empty in Hk.
      by destruct Hk.
    + intros Hin.
      assert (Hlast : exists j, props !! j = Some k /\
                forall j', (j < j')%nat -> props !! j' <> Some k).
      { clear -Hin. induction props as [|p props IH]; [by apply elem_of_nil in Hin|].
        destruct (decide (k ∈ props)) as [Hk|Hk].
        - destruct (IH Hk) as (j & Hj & Hl). exists (S j). split; [exact Hj|].
          intros [|j'] Hlt; [lia|]. apply Hl. lia.
        - apply elem_of_cons in Hin as [->|]; [|done]. exists 0%nat.
          split; [reflexivity|]. intros [|j'] Hlt Hj'; [lia|].
          apply Hk. apply list_elem_of_lookup. eauto. }
      destruct Hlast as (j & Hj & Hl).
      rewrite (proj2 (fill_props_lookup _ _ _ _ _ k Hd) j Hj Hl).
      apply lookup_lt_is_Some_2.
      destruct (Nat.le_gt_cases (length props) (length (str_split tab line)))
        as [Hle|Hgt].
      * apply lookup_lt_Some in Hj. cbn. lia.
      * rewrite fill_props_short in Hd by (cbn; lia). discriminate.
  - intros j k Hj Hl.
    exact (proj2 (fill_props_lookup _ _ _ _ _ k Hd) j Hj Hl).
Qed.

(** The statement above at a line of three fields under the schema
    [name, used, type]. *)
Lemma parse_record_fields_witness :
  exists d, [record "tank" "10240" "filesystem"] = [d] /\
    (forall k, is_Some (d !! k) <-> k ∈ ["name"; "used"; "type"]) /\
    (forall j k, ["name"; "used"; "type"] !! j = Some k ->
       (forall j', (j < j')%nat -> ["name"; "used"; "type"] !! j' <> Some k) ->
       d !! k = str_split tab (tsv ["tank"; "10240"; "filesystem"]) !! j).
Proof.
  apply (parse_record_fields (tsv ["tank"; "10240"; "filesystem"])
           ["name"; "used"; "type"]).
  - vm_compute. reflexivity.
  - vm_compute. discriminate.
Defined.

(** ** Splitting and joining *)

Lemma str_split_without c s :
  without_char c s = true -> str_split c s = [s].
Proof.
  induction s as [|a s IH]; [reflexivity|]. cbn [without_char str_split].
  destruct (Ascii.eqb a c); [discriminate|]. cbn [negb andb].
  intros H. by rewrite IH.
Qed.

Lemma str_split_app c x rest :
  without_char c x = true ->
  str_split c (x +:+ String c rest) = x :: str_split c rest.
Proof.
  induction x as [|a x IH].
  - intros _. change ("" +:+ String c rest) with (String c rest).
    cbn [str_split]. by rewrite Ascii.eqb_refl.
  - change (String a x +:+ String c rest) with (String a (x +:+ String c rest)).
    cbn [without_char str_split].
    destruct (Ascii.eqb a c); [discriminate|]. cbn [negb andb].
    intros H. by rewrite IH.
Qed.

Lemma str_split_join c l :
  l <> [] -> Forall (fun s => without_char c s = true) l ->
  str_split c (join (String c "") l) = l.
Proof.
  intros Hne Hl. induction Hl as [|x l Hx Hl IH]; [done|].
  destruct l as [|y l].
  - cbn. by apply str_split_without.
  - change (join (String c "") (x :: y :: l))
      with (x +:+ String c (join (String c "") (y :: l))).
    rewrite str_split_app by exact Hx. f_equal. by apply IH.
Qed.

Lemma str_split_pieces c s :
  Forall (fun p => without_char c p = true) (str_split c s).
Proof.
  induction s as [|a s IH]; [by repeat constructor|]. cbn [str_split].
  destruct (Ascii.eqb a c) eqn:Hac; [by constructor|].
  destruct (str_split c s) as [|w ws].
  { constructor; [|constructor]. cbn [without_char]. by rewrite Hac. }
  apply Forall_cons in IH as [Hw Hws]. constructor; [|exact Hws].
  cbn [without_char]. by rewrite Hac, Hw.
Qed.

Lemma join_str_split c s : join (String c "") (str_split c s) = s.
Proof.
  induction s as [|a s IH]; [reflexivity|]. cbn [str_split].
  destruct (Ascii.eqb_spec a c) as [->|Hac].
  - pose proof (str_split_nonempty c s) as Hne.
    destruct (str_split c s) as [|w ws]; [done|].
    change (join (String c "") ("" :: w :: ws))
      with (String c (join (String c "") (w :: ws))).
    by rewrite IH.
  - pose proof (str_split_nonempty c s) as Hne.
    destruct (str_split c s) as [|w ws]; [done|].
    destruct ws as [|w' ws].
    + cbn in *. by rewrite IH.
    + change (join (String c "") (String a w :: w' :: ws))
        with (String a (join (String c "") (w :: w' :: ws))).
      by rewrite IH.
Qed.

(** X3: a record written as one tab-separated line is read back: for a
    schema without repeated names and as many tab-free fields, the parser
    returns the one record that has each field under its name. *)
Theorem parse_tsv_roundtrip fields props :
  length fields = length props ->
  Forall (fun f => without_char tab f = true) fields ->
  tsv fields <> "" ->
  NoDup props ->
  exists d, parse_zfs_list_output [tsv fields] props = Ok [d] /\
    forall j k, props !! j = Some k -> d !! k = fields !! j.
Proof.
  intros Hlen Htab Hne Hnd.
  assert (Hsplit : str_split tab (tsv fields) = fields).
  { apply str_split_join; [|exact Htab]. intros ->. by apply Hne. }
  destruct (fill_props_enough fields 0 props ∅) as [d Hd]; [cbn; lia|].
  exists d. split.
  - cbn [parse_zfs_list_output]. rewrite bool_decide_eq_false_2 by exact Hne.
    by rewrite Hsplit, Hd.
  - intros j k Hj.
    apply (proj2 (fill_props_lookup _ _ _ _ _ k Hd) j Hj).
    intros j' Hlt Hj'. pose proof (NoDup_lookup _ _ _ _ Hnd Hj Hj'). lia.
Qed.

(** The statement above at the three fields of a filesystem line. *)
Lemma parse_tsv_roundtrip_witness :
  exists d,
    parse_zfs_list_output [tsv ["tank"; "10240"; "filesystem"]]
      ["name"; "used"; "type"] = Ok [d] /\
    forall j k, ["name"; "used"; "type"] !! j = Some k ->
      d !! k = ["tank"; "10240"; "filesystem"] !! j.
Proof.
  apply parse_tsv_roundtrip.
  - reflexivity.
  - repeat constructor.
  - vm_compute. discriminate.
  - repeat (apply NoDup_cons; split; [|]); try apply NoDup_nil_2;
      rewrite ?elem_of_cons, ?elem_of_nil; intros H; repeat destruct H as [H|H];
      done.
Defined.

(** ** The property list and the command *)

Lemma resolve_alias_idempotent p : resolve_alias (resolve_alias p) = resolve_alias p.
Proof. unfold resolve_alias. repeat (case_bool_decide; subst; try done). Qed.

Lemma resolve_alias_without_comma p :
  without_char comma p = true -> without_char comma (resolve_alias p) = true.
Proof. unfold resolve_alias. intros H. repeat (case_bool_decide; try done). Qed.

Lemma main_props_has_name o : "name" ∈ main_props o.
Proof.
  rewrite main_props_unfold. case_bool_decide as Hin.
  - apply list_elem_of_fmap. exists "name". split; [reflexivity|exact Hin].
  - apply list_elem_of_here.
Qed.

Lemma main_props_without_comma o :
  Forall (fun p => without_char comma p = true) (main_props o).
Proof.
  rewrite main_props_unfold. apply Forall_fmap.
  assert (H : Forall (fun p => without_char comma p = true)
                (if bool_decide ("name" ∈ str_split comma o)
                 then str_split comma o else "name" :: str_split comma o)).
  { case_bool_decide; [|constructor; [reflexivity|]]; apply str_split_pieces. }
  eapply Forall_impl; [exact H|]. intros p Hp. by apply resolve_alias_without_comma.
Qed.

(** X4: for every value of [-o], the column list the command is given
    after [-o] splits into the schema the output is parsed with,
    [props + ['type']]; a dataset name follows only when one was given
    and is not empty. *)
Theorem zfs_command_requests_schema o filesystem :
  let props := main_props o in
  exists arg,
    zfs_command filesystem props
    = ["zfs"; "list"; "-Hrpt"; "all"; "-o"; arg]
      ++ match filesystem with
         | Some f => if bool_decide (f = "") then [] else [f]
         | None => []
         end /\
    str_split comma arg = props ++ ["type"].
Proof.
  intros props. exists (join "," (props ++ ["type"])). split; [reflexivity|].
  apply (str_split_join comma).
  - by destruct props.
  - apply Forall_app. split; [apply main_props_without_comma|].
    by repeat constructor.
Qed.

(** X5: normalising is idempotent: the joined result, given as [-o]
    again, comes back unchanged. *)
Theorem main_props_idempotent o :
  main_props (join "," (main_props o)) = main_props o.
Proof.
  pose proof (main_props_has_name o) as Hname.
  pose proof (main_props_without_comma o) as Hcomma.
  rewrite (main_props_unfold (join "," (main_props o))).
  rewrite (str_split_join comma) by
    (try exact Hcomma; intros E; rewrite E in Hname; by apply elem_of_nil in Hname).
  rewrite bool_decide_eq_true_2 by exact Hname.
  rewrite main_props_unfold. rewrite <- list_fmap_compose.
  apply list_fmap_ext. intros _ p _. apply resolve_alias_idempotent.
Qed.

(** ** Rows, columns and the view *)

Lemma convert_row_length cols row g :
  convert_row cols row = Ok g -> length g = length cols /\ length row = length cols.
Proof.
  revert row g. induction cols as [|c cols IH]; intros [|v row] g H;
    cbn [convert_row] in H; try discriminate.
  - by injection H as <-.
  - destruct (to_gvalue c v); try discriminate. cbn [bind] in H.
    destruct (convert_row cols row) as [gs| |] eqn:Hgs; try discriminate.
    cbn [bind] in H. injection H as <-.
    destruct (IH _ _ Hgs). cbn [length]. lia.
Qed.

Lemma convert_row_app_inv cols1 cols2 row1 row2 g :
  length row1 = length cols1 ->
  convert_row (cols1 ++ cols2) (row1 ++ row2) = Ok g ->
  exists g1 g2, g = g1 ++ g2 /\ convert_row cols1 row1 = Ok g1 /\
                convert_row cols2 row2 = Ok g2.
Proof.
  revert row1 g. induction cols1 as [|c cols1 IH]; intros [|v row1] g Hlen H;
    try discriminate.
  - exists [], g. by repeat split.
  - cbn [app convert_row] in *.
    destruct (to_gvalue c v) as [gv| |]; try discriminate. cbn [bind] in *.
    destruct (convert_row (cols1 ++ cols2) (row1 ++ row2)) as [gs| |] eqn:Hgs;
      try discriminate.
    cbn [bind] in H. injection H as <-.
    destruct (IH row1 gs) as (g1 & g2 & -> & H1 & H2); [cbn in Hlen; lia|done|].
    exists (gv :: g1), g2. rewrite H1. by repeat split.
Qed.

Section Rows.
Variable strftime_localtime : Z -> outcome string.

Local Opaque human_readable py_int py_float float_of_int nearest_float.

(** The values of a property: a display string, and a sort key when the
    property has a sort column. *)
Lemma row_values_shape fs prop vs :
  row_values strftime_localtime fs prop = Ok vs ->
  exists display,
    vs = VStr display
         :: (if has_sort_column prop then drop 1 vs else []) /\
    (has_sort_column prop = true ->
       exists key x, vs = [VStr display; key] /\
                     to_gvalue ColFloat key = Ok (GDouble x)).
Proof.
  unfold row_values, has_sort_column. intros H.
  destruct (getitem fs prop) as [v| |] eqn:Hv;
    [|repeat case_bool_decide; discriminate..].
  case_bool_decide as Hsize; cbn [bind orb] in *.
  - case_bool_decide.
    + injection H as <-. exists "-". split; [reflexivity|]. intros _.
      exists (VInt 0), (S754_zero false). split; [reflexivity|].
      cbn [to_gvalue]. by rewrite float_of_int_0.
    + destruct (py_int v) as [n| |]; try discriminate. cbn [bind] in H.
      destruct (human_readable n true) as [s| |]; try discriminate. cbn [bind] in H.
      destruct (py_float v) as [x| |]; try discriminate. cbn [bind] in H.
      injection H as <-. exists s. split; [reflexivity|]. intros _.
      by exists (VFloat x), x.
  - case_bool_decide as Hcreation; cbn [bind] in *.
    + destruct (py_int v) as [n| |]; try discriminate. cbn [bind] in H.
      destruct (strftime_localtime n) as [s| |]; try discriminate. cbn [bind] in H.
      destruct (py_float v) as [x| |]; try discriminate. cbn [bind] in H.
      injection H as <-. exists s. split; [reflexivity|]. intros _.
      by exists (VFloat x), x.
    + injection H as <-. exists v. split; [reflexivity|]. discriminate.
Qed.

(** The stored row of a record, one property after the other. *)
Lemma stored_row_cons p ps fs g :
  stored_row strftime_localtime (p :: ps) fs = Ok g ->
  exists vs gs g',
    row_values strftime_localtime fs p = Ok vs /\
    convert_row (if has_sort_column p then [ColStr; ColFloat] else [ColStr]) vs
    = Ok gs /\
    stored_row strftime_localtime ps fs = Ok g' /\ g = gs ++ g'.
Proof.
  unfold stored_row. cbn [build_row store_columns]. intros H.
  destruct (row_values strftime_localtime fs p) as [vs| |] eqn:Hvs; try discriminate.
  cbn [bind] in H.
  destruct (build_row strftime_localtime fs ps) as [row| |] eqn:Hrow;
    try discriminate.
  cbn [bind] in *.
  destruct (row_values_fit _ _ _ _ Hvs) as [gs Hgs].
  apply convert_row_app_inv in H as (g1 & g2 & -> & H1 & H2);
    [|by destruct (convert_row_length _ _ _ Hgs)].
  exists vs, g1, g2. by repeat split.
Qed.

(** Where the values of the [i]-th property stand in a stored row. *)
Lemma stored_row_layout props fs g i prop :
  stored_row strftime_localtime props fs = Ok g ->
  props !! i = Some prop ->
  exists vs gs,
    row_values strftime_localtime fs prop = Ok vs /\
    convert_row (if has_sort_column prop then [ColStr; ColFloat] else [ColStr]) vs
    = Ok gs /\
    forall j, (j < length gs)%nat ->
      g !! (length (store_columns (take i props)) + j)%nat = gs !! j.
Proof.
  revert i g. induction props as [|p props IH]; intros i g Hg Hi; [done|].
  apply stored_row_cons in Hg as (vs & gs & g' & Hvs & Hgs & Hg' & ->).
  destruct i as [|i].
  - injection Hi as ->. exists vs, gs. repeat split; [done..|].
    intros j Hj. cbn [take store_columns length Nat.add]. by apply lookup_app_l.
  - destruct (IH i g' Hg' Hi) as (vs' & gs' & Hvs' & Hgs' & Hlook).
    exists vs', gs'. repeat split; [done..|]. intros j Hj.
    cbn [take store_columns]. rewrite length_app, <- Nat.add_assoc.
    destruct (convert_row_length _ _ _ Hgs) as [<- _].
    rewrite lookup_app_r by lia.
    rewrite <- (Hlook j Hj). f_equal. lia.
Qed.

(** The indices [Gui.__init__] gives the [i]-th column. *)
Lemma view_columns_lookup gui_opts index props i col :
  view_columns gui_opts index props !! i = Some col ->
  exists prop,
    props !! i = Some prop /\
    col_title col = prop /\
    col_text col = (index + length (store_columns (take i props)))%nat /\
    col_sort_column_id col
    = (col_text col + if has_sort_column prop then 1 else 0)%nat /\
    col_fixed_width col = saved_width gui_opts prop.
Proof.
  revert index i. induction props as [|p props IH]; intros index i Hi; [done|].
  cbn [view_columns] in Hi. destruct i as [|i].
  - injection Hi as <-. exists p. cbn.
    repeat split; [lia|destruct (has_sort_column p); lia].
  - destruct (IH _ _ Hi) as (prop & Hprop & Htitle & Htext & Hsort & Hwidth).
    exists prop. repeat split; [done..| |done|done].
    rewrite Htext. cbn [take store_columns]. rewrite length_app.
    destruct (has_sort_column p); cbn [length]; lia.
Qed.
End Rows.

(** X6: the view and the store agree on the columns: in the stored row of
    a record, the text index of the [i]-th view column holds the display
    string of the [i]-th property, and its sort column holds the numeric
    key of that property when it has one and is the text column itself
    otherwise. *)
Theorem view_column_reads_property strftime gui_opts props fs g i col :
  stored_row strftime props fs = Ok g ->
  view_columns gui_opts 0 props !! i = Some col ->
  exists prop display,
    props !! i = Some prop /\ col_title col = prop /\
    g !! col_text col = Some (GStr display) /\
    if has_sort_column prop then
      exists key x,
        row_values strftime fs prop = Ok [VStr display; key] /\
        to_gvalue ColFloat key = Ok (GDouble x) /\
        g !! col_sort_column_id col = Some (GDouble x)
    else
      row_values strftime fs prop = Ok [VStr display] /\
      col_sort_column_id col = col_text col.
Proof.
  intros Hg Hcol.
  apply view_columns_lookup in Hcol as (prop & Hprop & Htitle & Htext & Hsort & _).
  destruct (stored_row_layout _ _ _ _ _ _ Hg Hprop) as (vs & gs & Hvs & Hgs & Hlook).
  destruct (row_values_shape _ _ _ _ Hvs) as (display & Hshape & Hkey).
  exists prop, display. rewrite Hsort, Htext. cbn [Nat.add].
  split; [done|]. split; [done|].
  destruct (has_sort_column prop).
  - destruct (Hkey eq_refl) as (key & x & -> & Hx).
    cbn [convert_row] in Hgs.
    change (to_gvalue ColStr (VStr display)) with (Ok (GStr display)) in Hgs.
    rewrite Hx in Hgs. cbn [bind] in Hgs. injection Hgs as <-. split.
    + rewrite <- (Nat.add_0_r (length _)). by rewrite (Hlook 0%nat) by (cbn; lia).
    + exists key, x. repeat split; [done..|].
      by rewrite (Hlook 1%nat) by (cbn; lia).
  - rewrite Hshape in Hgs, Hvs. cbn in Hgs. injection Hgs as <-. split.
    + rewrite <- (Nat.add_0_r (length _)). by rewrite (Hlook 0%nat) by (cbn; lia).
    + split; [done|lia].
Qed.

(** The statement above at the [used] column of the sample's first
    record. *)
Lemma view_column_reads_property_witness :
  let g := [GStr "tank"; GStr "10.0K"; GDouble (nearest_float 10240)] in
  let col := {| col_title := "used"; col_text := 1; col_right := true;
                col_sort_column_id := 2; col_fixed_width := None |} in
  let fs := record "tank" "10240" "filesystem" in
  exists prop display,
    ["name"; "used"] !! 1%nat = Some prop /\ col_title col = prop /\
    g !! col_text col = Some (GStr display) /\
    if has_sort_column prop then
      exists key x,
        row_values strftime_unused fs prop = Ok [VStr display; key] /\
        to_gvalue ColFloat key = Ok (GDouble x) /\
        g !! col_sort_column_id col = Some (GDouble x)
    else
      row_values strftime_unused fs prop = Ok [VStr display] /\
      col_sort_column_id col = col_text col.
Proof.
  cbv zeta.
  apply (view_column_reads_property strftime_unused no_opts ["name"; "used"]).
  - vm_compute. reflexivity.
  - vm_compute. reflexivity.
Defined.

(** ** What [build_treestore] returns and how it fails *)




Lemma float_of_int_failure n :
  failure (float_of_int n) = None \/
  failure (float_of_int n) = Some (inl OverflowError).
Proof. unfold float_of_int. destruct (nearest_float n); by (left + right). Qed.

Lemma human_readable_failure_cases n binary :
  failure (human_readable n binary) = None \/
  (failure (human_readable n binary) = Some (inl OverflowError) /\
   failure (float_of_int n) = Some (inl OverflowError) /\
   mode_base binary <= Z.abs n).
Proof.
  destruct (Z.lt_ge_cases (Z.abs n) (mode_base binary)) as [Hlt|Hge].
  - left. rewrite human_readable_unfold.
    by destruct (Z.ltb_spec (Z.abs n) (mode_base binary)); [|lia].
  - rewrite human_readable_large by exact Hge.
    destruct (float_of_int_failure n) as [Hok|Hfail].
    + left. destruct (float_of_int n) as [x| |]; try discriminate. cbn [bind].
      pose proof (scale_loop_float_returns (mode_base binary) (mode_sep binary)
                    (tail (mode_units binary)) (mode_last binary)
                    (float_div x (nearest_float (mode_base binary)))) as Hr.
      by destruct (scale_loop _ _ _ _ _).
    + right. destruct (float_of_int n) as [x|e|]; try discriminate.
      cbn [bind]. by repeat split.
Qed.


Section Built.
Variable strftime_localtime : Z -> outcome string.
Variable props : list string.

Local Opaque human_readable py_int float_of_int nearest_float.



Lemma stored_row_failure fs :
  failure (stored_row strftime_localtime props fs)
  = failure (build_row strftime_localtime fs props).
Proof.
  unfold stored_row.
  destruct (build_row strftime_localtime fs props) as [row| |] eqn:Hrow;
    try reflexivity.
  destruct (build_row_fits _ _ _ _ Hrow) as [g Hg]. cbn [bind]. by rewrite Hg.
Qed.

Lemma stored_row_length fs g :
  stored_row strftime_localtime props fs = Ok g ->
  length g = length (store_columns props).
Proof.
  unfold stored_row. intros H.
  destruct (build_row strftime_localtime fs props); try discriminate.
  cbn [bind] in H. by destruct (convert_row_length _ _ _ H).
Qed.

(** One turn of the loop from a state it can reach: the state it leaves, or
    the way it fails. *)
Lemma add_record_cases forest fs :
  (exists forest',
     add_record strftime_localtime props (state_of props forest) fs
     = Ok (state_of props forest') /\
     record_ok strftime_localtime props fs /\
     (is_snapshot fs -> forest <> []) /\
     (forest' = [] <-> forest = [] /\ ~ is_filesystem fs)) \/
  (returns (add_record strftime_localtime props (state_of props forest) fs) = false /\
   (record_ok strftime_localtime props fs -> is_snapshot fs /\ forest = []) /\
   forall f,
     failure (add_record strftime_localtime props (state_of props forest) fs) = Some f ->
     failure (build_row strftime_localtime fs props) = Some f \/
     (f = inl KeyError /\ fs !! "type" = None) \/
     (f = inl UnboundLocalError /\ is_snapshot fs /\ forest = [])).
Proof.
  unfold record_ok, is_snapshot, is_filesystem.
  pose proof (stored_row_returns strftime_localtime props fs) as Hret.
  pose proof (stored_row_failure fs) as Hfail.
  destruct (fs !! "type") as [ty|] eqn:Hty.
  2: { right. unfold add_record, state_of, getitem. rewrite Hty.
       destruct (build_row strftime_localtime fs props); cbn [bind returns failure].
       - split; [done|]. split; [by intros [_ []]|]. intros f [= <-]. right. by left.
       - split; [done|]. split; [by intros []|]. intros f Hf. by left.
       - split; [done|]. split; [by intros []|]. intros f Hf. by left. }
  destruct (decide (ty = "filesystem")) as [->|Hnf].
  { rewrite add_record_filesystem by exact Hty.
    destruct (stored_row strftime_localtime props fs) as [g| |];
      cbn [bind returns failure] in *.
    - left. exists (forest ++ [Node g []]). split; [done|].
      split; [split; [done|by eexists]|]. split; [discriminate|].
      split; [by destruct forest|by intros [_ []]].
    - right. split; [done|]. split; [intros [Hr _]; congruence|].
      intros f Hf. left. congruence.
    - right. split; [done|]. split; [intros [Hr _]; congruence|].
      intros f Hf. left. congruence. }
  destruct (decide (ty = "snapshot")) as [->|Hns].
  { destruct (forest_snoc_inv forest) as [->|(F & r & ch & ->)].
    - right.
      change (state_of props [])
        with ({| columns := store_columns props; roots := [] |}, @None TreePath).
      rewrite add_record_snapshot_unbound by exact Hty.
      destruct (build_row strftime_localtime fs props); cbn [bind returns failure].
      + split; [done|]. split; [done|]. intros f [= <-]. right. right. done.
      + split; [done|]. split; [by intros []|]. intros f Hf. by left.
      + split; [done|]. split; [by intros []|]. intros f Hf. by left.
    - rewrite add_record_snapshot by exact Hty.
      destruct (stored_row strftime_localtime props fs) as [g| |];
        cbn [bind returns failure] in *.
      + left. exists (F ++ [Node r (ch ++ [Node g []])]). split; [done|].
        split; [split; [done|by eexists]|]. split; [intros _; by destruct F|].
        split; [by destruct F|intros [? _]; by destruct F].
      + right. split; [done|]. split; [intros [Hr _]; congruence|].
        intros f Hf. left. congruence.
      + right. split; [done|]. split; [intros [Hr _]; congruence|].
        intros f Hf. left. congruence. }
  rewrite (add_record_other _ _ _ _ ty) by done.
  destruct (build_row strftime_localtime fs props); cbn [bind returns failure].
  - left. exists forest. split; [done|]. split; [split; [done|by eexists]|].
    split; [by intros [= ->]|]. split; [intros ->; split; [done|by intros [= ->]]|].
    by intros [-> _].
  - right. split; [done|]. split; [by intros []|]. intros f Hf. by left.
  - right. split; [done|]. split; [by intros []|]. intros f Hf. by left.
Qed.

Lemma add_records_returns forest records :
  returns (add_records strftime_localtime props (state_of props forest) records) = true
  <-> Forall (record_ok strftime_localtime props) records /\
      (forest = [] -> snapshots_until_filesystem records = []).
Proof.
  revert forest. induction records as [|fs records IH]; intros forest.
  - split; [by split|done].
  - cbn [add_records snapshots_until_filesystem].
    destruct (add_record_cases forest fs)
      as [(forest' & -> & Hok & Hsnap & Hempty)|(Hfail & Hwhy & _)].
    + cbn [bind]. rewrite IH, Forall_cons. split.
      * intros [Hall Hsu]. split; [by split|]. intros ->.
        destruct (decide (is_filesystem fs)) as [|Hnf]; [done|].
        rewrite decide_False by (intros Hs; by apply Hsnap).
        apply Hsu, Hempty. by split.
      * intros [[_ Hall] Hsu]. split; [done|]. intros [Hf Hnf]%Hempty.
        specialize (Hsu Hf). rewrite decide_False in Hsu by exact Hnf.
        by apply app_eq_nil in Hsu as [_ ?].
    + destruct (add_record _ _ _ fs); [discriminate|..]; cbn [bind returns];
        (split; [done|]); rewrite Forall_cons; intros [[Hok _] Hsu];
        destruct (Hwhy Hok) as [Hs ->]; specialize (Hsu eq_refl);
        (destruct (decide (is_filesystem fs)) as [Hf|_];
         [unfold is_filesystem, is_snapshot in *; congruence|]);
        by rewrite decide_True in Hsu by exact Hs.
Qed.

End Built.

Lemma fill_treestore_unfold strftime records props :
  fill_treestore strftime records props =
  do st <- add_records strftime props (state_of props []) records; Ok st.1.
Proof. reflexivity. Qed.

(** X7: every row of a built store has one value per column of the store,
    whose columns are the ones laid out for the properties. *)
Theorem built_rows_fit_columns strftime props records store :
  fill_treestore strftime records props = Ok store ->
  columns store = store_columns props /\
  Forall (fun n =>
            length (node_row n) = length (columns store) /\
            Forall (fun c => length (node_row c) = length (columns store))
              (node_children n))
    (roots store).
Proof.
  rewrite fill_treestore_unfold. intros H.
  destruct (add_records _ _ _ _) as [st| |] eqn:Hst; try discriminate.
  cbn [bind] in H. injection H as <-.
  apply add_records_forest in Hst as (cs & news & -> & _ & Hroots).
  split; [reflexivity|]. cbn [state_of fst roots columns].
  change (adopt [] cs) with (@nil TreeNode). cbn [app].
  clear cs. induction Hroots as [|n g news owners [Hrow Hch] _ IH]; constructor.
  - split; [by eapply stored_row_length|].
    clear -Hch. induction Hch as [|c s cs ss [Hc _] _ IH]; constructor.
    + by eapply stored_row_length.
    + exact IH.
  - exact IH.
Qed.

(** The statement above at the sample. *)
Lemma built_rows_fit_columns_witness :
  columns sample_store = store_columns ["name"; "used"] /\
  Forall (fun n =>
            length (node_row n) = length (columns sample_store) /\
            Forall (fun c => length (node_row c) = length (columns sample_store))
              (node_children n))
    (roots sample_store).
Proof.
  apply (built_rows_fit_columns strftime_unused ["name"; "used"] sample_records).
  vm_compute. reflexivity.
Defined.

Lemma snapshot_count records :
  length (filter is_snapshot records)
  = (length (snapshots_until_filesystem records)
     + sum_list ((fun g => length g.2) <$> ownership records))%nat.
Proof.
  induction records as [|r records IH]; [reflexivity|].
  rewrite filter_cons. cbn [snapshots_until_filesystem ownership].
  destruct (decide (is_filesystem r)) as [Hf|Hnf].
  - rewrite decide_False
      by (unfold is_filesystem, is_snapshot in *; congruence).
    cbn [fmap list_fmap sum_list_with snd length]. rewrite IH. cbn. lia.
  - destruct (decide (is_snapshot r)); cbn [app length]; rewrite IH; lia.
Qed.

(** X8: a built store has one top-level node per filesystem record and
    one child per snapshot record: no record of these two kinds is lost
    and none is stored twice. *)
Theorem built_node_count strftime props records store :
  fill_treestore strftime records props = Ok store ->
  length (roots store) = length (filter is_filesystem records) /\
  child_count (roots store) = length (filter is_snapshot records).
Proof.
  rewrite fill_treestore_unfold. intros H.
  destruct (add_records _ _ _ _) as [st| |] eqn:Hst; try discriminate.
  cbn [bind] in H. injection H as <-.
  assert (Hsu : snapshots_until_filesystem records = []).
  { apply (add_records_returns strftime props [] records); [by rewrite Hst|done]. }
  apply add_records_forest in Hst as (cs & news & -> & _ & Hroots).
  cbn [state_of fst roots]. change (adopt [] cs) with (@nil TreeNode). cbn [app].
  split.
  - rewrite (Forall2_length _ _ _ Hroots), <- ownership_filesystems.
    by rewrite length_fmap.
  - rewrite snapshot_count, Hsu. cbn [length Nat.add]. unfold child_count.
    clear -Hroots. induction Hroots as [|n g news owners [_ Hch] _ IH];
      [reflexivity|].
    cbn [fmap list_fmap sum_list_with]. cbn [fmap] in IH.
    rewrite (Forall2_length _ _ _ Hch). f_equal. exact IH.
Qed.

(** The statement above at the sample. *)
Lemma built_node_count_witness :
  length (roots sample_store) = length (filter is_filesystem sample_records) /\
  child_count (roots sample_store) = length (filter is_snapshot sample_records).
Proof.
  apply (built_node_count strftime_unused ["name"; "used"]).
  vm_compute. reflexivity.
Defined.

(** X9: the loop of [build_treestore] returns a store exactly when the row
    of every record can be built, every record has a [type], and no
    snapshot record comes before the first filesystem record. *)
Theorem fill_treestore_returns strftime props records :
  returns (fill_treestore strftime records props) = true <->
  Forall (record_ok strftime props) records /\
  snapshots_until_filesystem records = [].
Proof.
  rewrite fill_treestore_unfold.
  pose proof (add_records_returns strftime props [] records) as H.
  destruct (add_records _ _ _ _); cbn [bind returns] in *.
  - split; [intros _|done]. destruct (proj1 H eq_refl) as [? Hsu]. split; [done|].
    by apply Hsu.
  - split; [done|]. intros [? Hsu]. apply H. by split.
  - split; [done|]. intros [? Hsu]. apply H. by split.
Qed.



(** ** More on [human_readable] *)

(** Rounding an integer below [2^53] to a float, with either sign. *)
Lemma binary_round_small s p :
  Z.pos p < 2 ^ 53 ->
  exists m,
    binary_round prec emax s p 0
    = S754_finite s m (Z.pos (digits2_pos p) - 53) /\
    Z.pos (digits2_pos m) = 53 /\
    Z.pos m = Z.pos p * 2 ^ (53 - Z.pos (digits2_pos p)).
Proof.
  intros Hp. pose proof (digits2_pos_small p Hp) as Hd.
  unfold binary_round, shl_align, fexp, emin, prec, emax.
  replace (Z.max (Z.pos (digits2_pos p) + 0 - 53) (3 - 1024 - 53) - 0)
    with (Z.pos (digits2_pos p) - 53) by lia.
  replace (Z.max (Z.pos (digits2_pos p) + 0 - 53) (3 - 1024 - 53))
    with (Z.pos (digits2_pos p) - 53) by lia.
  destruct (Z.pos (digits2_pos p) - 53) as [|k|k] eqn:Hk; [|lia|].
  - exists p. split; [|split; [lia|]].
    + fold prec emax. apply binary_round_aux_exact; lia.
    + replace (53 - Z.pos (digits2_pos p)) with 0 by lia. lia.
  - exists (Pos.iter xO p k). split; [|split].
    + fold prec emax. apply binary_round_aux_exact; [|lia].
      rewrite iter_xO_digits. lia.
    + rewrite iter_xO_digits. lia.
    + rewrite iter_xO_value. f_equal. f_equal. lia.
Qed.

Lemma float_of_int_returns n :
  Z.abs n <= 2 ^ 53 -> returns (float_of_int n) = true.
Proof.
  intros Hn. unfold float_of_int, nearest_float.
  destruct (Z.eq_dec (Z.abs n) (2 ^ 53)) as [Heq|Hne].
  { destruct (Z.abs_eq_or_opp n) as [E|E]; rewrite E in Heq.
    - subst n. vm_compute. reflexivity.
    - replace n with (- 2 ^ 53) by lia. vm_compute. reflexivity. }
  destruct n as [|p|p]; [reflexivity|..]; cbn [binary_normalize].
  - destruct (binary_round_small false p) as (m & -> & _); [lia|reflexivity].
  - destruct (binary_round_small true p) as (m & -> & _); [lia|reflexivity].
Qed.

(** X11: [human_readable] has one way to fail, [OverflowError], when the
    integer is at least the base and too large for a float; up to a
    magnitude of [2^53], where every integer is a float, it returns a
    string. *)
Theorem human_readable_failure n binary :
  (failure (human_readable n binary) = None \/
   failure (human_readable n binary) = Some (inl OverflowError) /\
   failure (float_of_int n) = Some (inl OverflowError) /\
   mode_base binary <= Z.abs n) /\
  (Z.abs n <= 2 ^ 53 -> returns (human_readable n binary) = true).
Proof.
  split; [apply human_readable_failure_cases|].
  intros Hn. apply human_readable_returns. by apply float_of_int_returns.
Qed.

(** ** The binary mode below [2^53] *)

Lemma digits2_pos_upper p : Z.pos p < 2 ^ Z.pos (digits2_pos p).
Proof.
  induction p as [p IH|p IH|]; cbn [digits2_pos]; [| |done];
    rewrite Pos2Z.inj_succ, Z.pow_succ_r by lia; lia.
Qed.

(** Dividing a float of full-width mantissa by [1024.0] only lowers its
    exponent. *)
Lemma float_div_1024 s m e :
  Z.pos (digits2_pos m) = 53 -> -1000 <= e <= 900 ->
  float_div (S754_finite s m e) (nearest_float 1024) = S754_finite s m (e - 10).
Proof.
  intros Hd He. rewrite float_1024. unfold float_div, SFdiv, SFdiv_core_binary.
  cbn [Zdigits2]. rewrite Hd.
  change (Z.pos (digits2_pos 4503599627370496)) with 53.
  unfold fexp, emin, prec, emax.
  replace (Z.min (Z.max (53 + e - (53 + -42) - 53) (3 - 1024 - 53)) (e - -42))
    with (e - 11) by lia.
  replace (e - -42 - (e - 11)) with 53 by lia.
  cbv iota beta.
  assert (Hdiv : Z.div_eucl (Z.shiftl (Z.pos m) 53) 4503599627370496
                 = (Z.pos m~0, 0)).
  { rewrite Z.shiftl_mul_pow2 by lia.
    pose proof (Z.div_eucl_eq (Z.pos m * 2 ^ 53) 4503599627370496 ltac:(lia)) as Heq.
    pose proof (Z.mod_pos_bound (Z.pos m * 2 ^ 53) 4503599627370496 ltac:(lia)) as Hb.
    unfold Z.modulo in Hb.
    destruct (Z.div_eucl (Z.pos m * 2 ^ 53) 4503599627370496) as [q r].
    change (2 ^ 53) with (2 * 4503599627370496) in Heq.
    assert (q = Z.pos m~0) by (rewrite Pos2Z.inj_xO; nia).
    subst q. f_equal. rewrite Pos2Z.inj_xO in Heq. lia. }
  rewrite Hdiv.
  change (new_location 4503599627370496 0) with loc_Exact.
  unfold binary_round_aux, shr_fexp, fexp, emin.
  cbn [Zdigits2 digits2_pos shr_record_of_loc]. rewrite Pos2Z.inj_succ, Hd.
  replace (Z.max (Z.succ 53 + (e - 11) - 53) (3 - 1024 - 53) - (e - 11)) with 1 by lia.
  cbn [shr SpecFloat.iter_pos shr_1 shr_m loc_of_shr_record round_nearest_even Zdigits2
       shr_record_of_loc fst snd orb].
  rewrite Hd.
  replace (Z.max (53 + (e - 11 + 1) - 53) (3 - 1024 - 53) - (e - 11 + 1)) with 0 by lia.
  cbn [shr shr_m].
  destruct (Z.leb_spec (e - 11 + 1) (1024 - 53)); [|lia].
  rewrite xorb_false_r. f_equal. lia.
Qed.

Lemma scaled_1024 k s m e :
  Z.pos (digits2_pos m) = 53 -> -900 <= e <= 900 -> (k <= 9)%nat ->
  scaled 1024 k (S754_finite s m e) = S754_finite s m (e - 10 * Z.of_nat k).
Proof.
  intros Hd He. induction k as [|k IH]; intros Hk.
  - cbn [scaled]. f_equal. lia.
  - cbn [scaled]. rewrite IH by lia. rewrite float_div_1024 by (done || lia).
    f_equal. lia.
Qed.

Lemma below_1024 s m e :
  Z.pos (digits2_pos m) = 53 ->
  below (S754_finite s m e) 1024 = (e <? -42).
Proof.
  intros Hd. unfold below, float_ltb, SFltb. rewrite float_1024.
  cbn [float_abs SFabs SFcompare].
  assert (Hm : (4503599627370496 <= m)%positive).
  { pose proof (digits2_pos_lower m) as Hl. rewrite Hd in Hl.
    change (2 ^ (53 - 1)) with 4503599627370496 in Hl. lia. }
  destruct (Z.compare_spec e (-42)) as [->|Hlt|Hgt].
  - rewrite Pos.compare_cont_spec. cbn [Pos.switch_Eq].
    change (-42 <? -42) with false.
    destruct (Pos.compare_spec m 4503599627370496) as [Heq|Hl|Hg].
    + exact eq_refl.
    + by apply Pos.lt_nle in Hl.
    + exact eq_refl.
  - symmetry. apply Z.ltb_lt. exact Hlt.
  - symmetry. apply Z.ltb_ge. lia.
Qed.

Lemma below_10 s m e :
  Z.pos (digits2_pos m) = 53 ->
  below (S754_finite s m e) 10 =
  (e <? -49) || ((e =? -49) && (Z.pos m <? 5629499534213120)).
Proof.
  intros Hd. unfold below, float_ltb, SFltb. rewrite float_10.
  cbn [float_abs SFabs SFcompare].
  destruct (Z.compare_spec e (-49)) as [->|Hlt|Hgt].
  - rewrite Pos.compare_cont_spec.
    change (-49 <? -49) with false. change (-49 =? -49) with true.
    cbn [orb andb]. unfold Z.ltb.
    change (Z.pos m ?= 5629499534213120) with (m ?= 5629499534213120)%positive.
    by destruct (m ?= 5629499534213120)%positive.
  - by rewrite (proj2 (Z.ltb_lt _ _) Hlt).
  - rewrite (proj2 (Z.ltb_ge _ _)) by (clear -Hgt; lia).
    rewrite (proj2 (Z.eqb_neq _ _)) by (clear -Hgt; lia). done.
Qed.

Lemma round_half_even_scale c a b :
  0 < c -> 0 < b -> round_half_even (c * a) (c * b) = round_half_even a b.
Proof.
  intros Hc Hb. unfold round_half_even.
  rewrite Z.div_mul_cancel_l by lia.
  rewrite Z.mul_mod_distr_l by lia.
  replace (2 * (c * (a mod b))) with (c * (2 * (a mod b))) by lia.
  by rewrite <- Zmult_compare_compat_l by lia.
Qed.

(** A full-width mantissa [m] with exponent [- t] against ten. *)
Lemma below_10_value m t :
  2 ^ 52 <= m < 2 ^ 53 -> 0 <= t ->
  (- t <? -49) || ((- t =? -49) && (m <? 5629499534213120)) = (m <? 10 * 2 ^ t).
Proof.
  intros Hm Ht.
  destruct (Z.lt_trichotomy t 49) as [Hlt|[->|Hgt]].
  - rewrite (proj2 (Z.ltb_ge _ _)) by lia.
    rewrite (proj2 (Z.eqb_neq _ _)) by lia.
    assert (2 ^ t <= 2 ^ 48) by (apply Z.pow_le_mono_r; lia).
    symmetry. apply Z.ltb_ge.
    change (2 ^ 52) with (16 * 2 ^ 48) in Hm. lia.
  - reflexivity.
  - rewrite (proj2 (Z.ltb_lt _ _)) by lia.
    assert (2 ^ 50 <= 2 ^ t) by (apply Z.pow_le_mono_r; lia).
    symmetry. apply Z.ltb_lt.
    change (2 ^ 53) with (8 * 2 ^ 50) in Hm. lia.
Qed.

(** The number of binary digits of [p] from the power of [1024] around it. *)
Lemma digits2_pos_range p k :
  1024 ^ Z.of_nat k <= Z.pos p < 1024 ^ (Z.of_nat k + 1) ->
  10 * Z.of_nat k + 1 <= Z.pos (digits2_pos p) <= 10 * Z.of_nat k + 10.
Proof.
  intros [Hlo Hhi].
  change 1024 with (2 ^ 10) in Hlo, Hhi.
  rewrite <- Z.pow_mul_r in Hlo, Hhi by lia.
  pose proof (digits2_pos_lower p) as Hl.
  pose proof (digits2_pos_upper p) as Hu.
  split.
  - assert (10 * Z.of_nat k < Z.pos (digits2_pos p)); [|lia].
    apply (Z.pow_lt_mono_r_iff 2); lia.
  - assert (Z.pos (digits2_pos p) - 1 < 10 * (Z.of_nat k + 1)); [|lia].
    apply (Z.pow_lt_mono_r_iff 2); lia.
Qed.

(** The loop of the binary mode on a float of full-width mantissa whose
    magnitude lies between [1024^k] and [1024^(k+1)]. *)
Lemma scale_loop_binary_stops s m e k unit units :
  Z.pos (digits2_pos m) = 53 -> (k <= 8)%nat ->
  units !! k = Some unit ->
  -52 + 10 * Z.of_nat k <= e < -42 + 10 * Z.of_nat k ->
  scale_loop 1024 "" units "YiB" (PFloat (S754_finite s m e)) =
  Ok (format_fixed
        (if below (S754_finite s m (e - 10 * Z.of_nat k)) 10 then 2 else 1)
        (S754_finite s m (e - 10 * Z.of_nat k)) +:+ unit).
Proof.
  intros Hd Hk Hu He.
  rewrite (scale_loop_stops true "" "YiB" units _ k unit Hu).
  - change (mode_base true) with 1024. rewrite scaled_1024 by (done || lia).
    reflexivity.
  - intros j Hj. change (mode_base true) with 1024.
    rewrite scaled_1024, below_1024 by (done || lia).
    apply Z.ltb_ge. lia.
  - change (mode_base true) with 1024.
    rewrite scaled_1024, below_1024 by (done || lia).
    apply Z.ltb_lt. lia.
Qed.

Lemma fixed_digits_quotient d m e p c k :
  e < 0 -> 0 < c -> 0 < k ->
  Z.pos m = c * p -> 2 ^ (- e) = c * k ->
  fixed_digits d m e = fixed_quotient d p k.
Proof.
  intros He Hc Hk Hm Hp. unfold fixed_digits, fixed_quotient.
  destruct (Z.leb_spec 0 e) as [?|_]; [lia|].
  rewrite Hm, Hp, <- Z.mul_assoc, round_half_even_scale by lia.
  reflexivity.
Qed.

(** X12: in the binary mode, a size from [1024] up to below [2^53] is
    shown without any error of the float arithmetic: with [k] the power
    of [1024] at or below its magnitude, the text is the sign, the exact
    quotient by [1024^k] rounded once (ties to even) to two decimals when
    it is below ten and to one otherwise, and the [k]-th unit. *)
Theorem human_readable_binary_exact n k unit :
  binary_units !! k = Some unit ->
  1024 <= Z.abs n < 2 ^ 53 ->
  1024 ^ Z.of_nat k <= Z.abs n < 1024 ^ (Z.of_nat k + 1) ->
  human_readable n true =
  Ok ((if n <? 0 then "-" else "") +:+
      fixed_quotient (if Z.abs n <? 10 * 1024 ^ Z.of_nat k then 2 else 1)
        (Z.abs n) (1024 ^ Z.of_nat k) +:+ unit).
Proof.
  intros Hu Hn Hk.
  assert (exists s p, n = cond_Zopp s (Z.pos p) /\ Z.abs n = Z.pos p /\
                      (n <? 0) = s) as (s & p & Hnp & Habs & Hs).
  { destruct n as [|p|p]; [lia|by exists false, p|by exists true, p]. }
  rewrite Habs in *.
  destruct k as [|k].
  { change (1024 ^ (Z.of_nat 0 + 1)) with 1024 in Hk. lia. }
  pose proof (digits2_pos_range p (S k) Hk) as Hr.
  pose proof (digits2_pos_small p ltac:(lia)) as Hsm.
  assert (Hk5 : (S k <= 5)%nat) by lia.
  rewrite (human_readable_large n true) by (change (mode_base true) with 1024; rewrite Habs; lia).
  assert (Hf : exists m, float_of_int n =
      Ok (S754_finite s m (Z.pos (digits2_pos p) - 53)) /\
      Z.pos (digits2_pos m) = 53 /\
      Z.pos m = Z.pos p * 2 ^ (53 - Z.pos (digits2_pos p))).
  { destruct (binary_round_small s p ltac:(lia)) as (m & Hm & Hd & Hv).
    exists m. split; [|done]. subst n. unfold float_of_int, nearest_float.
    destruct s; cbn [cond_Zopp]; [change (- Z.pos p) with (Z.neg p)|];
      cbn [binary_normalize]; by rewrite Hm. }
  destruct Hf as (m & -> & Hd & Hv).
  cbn [bind]. change (mode_base true) with 1024.
  rewrite float_div_1024 by (done || lia).
  change (mode_sep true) with "". change (mode_last true) with "YiB".
  rewrite (scale_loop_binary_stops s m _ k unit) by (done || lia).
  f_equal. rewrite Hs.
  set (e := Z.pos (digits2_pos p) - 53 - 10 - 10 * Z.of_nat k).
  assert (He : - e = (53 - Z.pos (digits2_pos p)) + 10 * Z.of_nat (S k)) by lia.
  assert (Hc : 0 < 2 ^ (53 - Z.pos (digits2_pos p))) by (apply Z.pow_pos_nonneg; lia).
  assert (Hpow : 2 ^ (- e) =
                 2 ^ (53 - Z.pos (digits2_pos p)) * 1024 ^ Z.of_nat (S k)).
  { rewrite He, Z.pow_add_r by lia. f_equal.
    change 1024 with (2 ^ 10). by rewrite <- Z.pow_mul_r by lia. }
  assert (Hb10 : below (S754_finite s m e) 10 =
                 (Z.pos p <? 10 * 1024 ^ Z.of_nat (S k))).
  { rewrite below_10 by done.
    replace e with (- - e) at 1 2 by lia.
    rewrite below_10_value; [| |lia].
    - rewrite Hpow, Hv.
      destruct (Z.ltb_spec (Z.pos p) (10 * 1024 ^ Z.of_nat (S k)));
        [apply Z.ltb_lt|apply Z.ltb_ge]; nia.
    - pose proof (digits2_pos_lower m). pose proof (digits2_pos_upper m).
      rewrite Hd in *. done. }
  rewrite Hb10. unfold format_fixed.
  rewrite (fixed_digits_quotient _ m e (Z.pos p)
             (2 ^ (53 - Z.pos (digits2_pos p))) (1024 ^ Z.of_nat (S k)));
    [|lia|done|apply Z.pow_pos_nonneg; lia|lia|done].
  destruct s; reflexivity.
Qed.

Lemma human_readable_binary_exact_witness :
  human_readable 1536 true = Ok "1.50K".
Proof.
  apply (human_readable_binary_exact 1536 1 "K"); [reflexivity|lia|lia].
Defined.

(** ** More on [refresh_tree] *)

Lemma expand_row_model tv i : model (expand_row tv i) = model tv.
Proof.
  unfold expand_row. destruct (roots (model tv) !! i) as [[r [|c ch]]|]; try done.
  by destruct (row_expanded tv i).
Qed.

Lemma expand_row_spec tv i k :
  k ∈ expanded (expand_row tv i) <->
  k ∈ expanded tv \/ (k = i /\ has_children (model tv) i = true).
Proof.
  unfold expand_row, has_children, row_expanded.
  destruct (roots (model tv) !! i) as [[r [|c ch]]|].
  - split; [by left|]. by intros [|[_ ?]].
  - case_bool_decide as Hi.
    + split; [by left|]. by intros [|[-> _]].
    + cbn [expanded]. rewrite elem_of_app, list_elem_of_singleton.
      split; (intros [|]; [by left|right]); [by split|by destruct H].
  - split; [by left|]. by intros [|[_ ?]].
Qed.

(** The first loop remembers the names of the rows of its list that the
    view shows expanded. *)
Lemma remember_expanded_spec tv i rows acc names name :
  remember_expanded tv i rows acc = Ok names ->
  name ∈ names <->
  name ∈ acc \/
  exists j row, rows !! j = Some row /\ (i + j)%nat ∈ expanded tv /\
                row_first row = Ok name.
Proof.
  revert i acc. induction rows as [|row rows IH]; intros i acc H.
  - injection H as <-. split; [by left|]. intros [?|(j & ? & ? & _)]; done.
  - cbn [remember_expanded] in H. unfold row_expanded in H.
    case_bool_decide as Hi.
    + destruct (row_first row) as [n| |] eqn:Hn; try discriminate.
      cbn [bind] in H. rewrite (IH _ _ H), elem_of_app, list_elem_of_singleton.
      split.
      * intros [[?| ->]|(j & row' & Hj & Hexp & Hrow')]; [by left|right..].
        -- exists 0%nat, row. by rewrite Nat.add_0_r.
        -- exists (S j), row'. by rewrite Nat.add_succ_r.
      * intros [?|([|j] & row' & Hj & Hexp & Hrow')]; [by left; left|..].
        -- injection Hj as <-. left. right. congruence.
        -- right. exists j, row'. by rewrite Nat.add_succ_r in Hexp.
    + rewrite (IH _ _ H). split.
      * intros [?|(j & row' & Hj & Hexp & Hrow')]; [by left|right].
        exists (S j), row'. by rewrite Nat.add_succ_r.
      * intros [?|([|j] & row' & Hj & Hexp & Hrow')]; [by left|..].
        -- by rewrite Nat.add_0_r in Hexp.
        -- right. exists j, row'. by rewrite Nat.add_succ_r in Hexp.
Qed.

(** The last loop expands the rows of the view at the positions where its
    list has a remembered name, when the view's row there has children. *)
Lemma expand_remembered_spec tv i rows names tv' :
  expand_remembered tv i rows names = Ok tv' ->
  model tv' = model tv /\
  forall k, k ∈ expanded tv' <->
    k ∈ expanded tv \/
    exists j row name, k = (i + j)%nat /\ rows !! j = Some row /\
      row_first row = Ok name /\ name ∈ names /\
      has_children (model tv) k = true.
Proof.
  revert tv i. induction rows as [|row rows IH]; intros tv i H.
  - injection H as <-. split; [done|]. intros k. split; [by left|].
    intros [?|(j & ? & ? & _ & ? & _)]; done.
  - cbn [expand_remembered] in H.
    destruct (row_first row) as [n| |] eqn:Hn; try discriminate.
    cbn [bind] in H. case_bool_decide as Hin.
    + destruct (IH _ _ H) as [Hmodel Hexp]. rewrite expand_row_model in *.
      split; [done|]. intros k. rewrite Hexp, expand_row_spec. split.
      * intros [[?|[-> Hch]]|(j & row' & name & -> & Hj & Hrow' & Hname & Hch)].
        -- by left.
        -- right. exists 0%nat, row, n. by rewrite Nat.add_0_r.
        -- right. exists (S j), row', name. by rewrite Nat.add_succ_r.
      * intros [?|([|j] & row' & name & -> & Hj & Hrow' & Hname & Hch)].
        -- by left; left.
        -- left. right. by rewrite Nat.add_0_r in *.
        -- right. exists j, row', name. by rewrite Nat.add_succ_r in *.
    + destruct (IH _ _ H) as [Hmodel Hexp].
      split; [done|]. intros k. rewrite Hexp. split.
      * intros [?|(j & row' & name & -> & Hj & Hrow' & Hname & Hch)]; [by left|].
        right. exists (S j), row', name. by rewrite Nat.add_succ_r.
      * intros [?|([|j] & row' & name & -> & Hj & Hrow' & Hname & Hch)].
        -- by left.
        -- injection Hj as <-. congruence.
        -- right. exists j, row', name. by rewrite Nat.add_succ_r in *.
Qed.

(** The whole of [refresh_tree], in terms of the store of the [Gui] and
    the store just built. *)
Lemma refresh_tree_spec strftime check_output self self' :
  refresh_tree strftime check_output self = Ok self' ->
  gui_filesystem self' = gui_filesystem self /\
  gui_props self' = gui_props self /\
  gui_store self' = gui_store self /\
  build_treestore strftime check_output (gui_filesystem self) (gui_props self)
  = Ok (model (gui_tview self')) /\
  forall k, k ∈ expanded (gui_tview self') <->
    has_children (model (gui_tview self')) k = true /\
    exists i name,
      i ∈ expanded (gui_tview self) /\
      name_at (gui_store self) i = Some (Ok name) /\
      name_at (gui_store self) k = Some (Ok name).
Proof.
  unfold refresh_tree. intros H.
  destruct (remember_expanded _ _ _ _) as [names| |] eqn:Hnames; try discriminate.
  cbn [bind] in H.
  destruct (build_treestore _ _ _ _) as [treestore| |]; try discriminate.
  cbn [bind] in H.
  destruct (expand_remembered _ _ _ _) as [tview'| |] eqn:Htview; try discriminate.
  cbn [bind] in H. injection H as <-. cbn [gui_filesystem gui_props gui_store gui_tview].
  apply expand_remembered_spec in Htview as [Hmodel Hexp].
  cbn [set_model model expanded] in *. rewrite Hmodel.
  do 4 (split; [done|]). intros k. split.
  - intros Hk. apply Hexp in Hk as [Hk|(j & row & name & -> & Hj & Hrow & Hin & Hch)];
      [by apply elem_of_nil in Hk|].
    cbn [Nat.add] in *. split; [done|].
    apply (remember_expanded_spec _ _ _ _ _ name Hnames) in Hin
      as [Hin|(i & row' & Hi & Hexp' & Hrow')]; [by apply elem_of_nil in Hin|].
    cbn [Nat.add] in *. exists i, name. unfold name_at. rewrite Hi, Hj. cbn [fmap option_fmap option_map].
    by rewrite Hrow, Hrow'.
  - intros [Hch (i & name & Hi & Hni & Hnk)]. apply Hexp. right.
    unfold name_at in *.
    destruct (roots (gui_store self) !! k) as [row|] eqn:Hk; [|done].
    destruct (roots (gui_store self) !! i) as [row'|] eqn:Hi'; [|done].
    injection Hni as Hni. injection Hnk as Hnk.
    exists k, row, name. split; [done|]. split; [done|]. split; [done|].
    split; [|done].
    apply (remember_expanded_spec _ _ _ _ _ name Hnames). right.
    exists i, row'. cbn [Nat.add]. by repeat split.
Qed.

(** X13: what [refresh_tree] leaves behind: the [Gui] keeps its store, its
    properties and its dataset; the view shows the store just built; and
    row [k] of the view is expanded exactly when it has children and the
    store of the [Gui] (not the new one) has in row [k] the name of one of
    its rows that was expanded before. *)
Theorem refresh_tree_expansion strftime check_output self self' :
  refresh_tree strftime check_output self = Ok self' ->
  gui_filesystem self' = gui_filesystem self /\
  gui_props self' = gui_props self /\
  gui_store self' = gui_store self /\
  build_treestore strftime check_output (gui_filesystem self) (gui_props self)
  = Ok (model (gui_tview self')) /\
  forall k, k ∈ expanded (gui_tview self') <->
    has_children (model (gui_tview self')) k = true /\
    exists i name,
      i ∈ expanded (gui_tview self) /\
      name_at (gui_store self) i = Some (Ok name) /\
      name_at (gui_store self) k = Some (Ok name).
Proof. apply refresh_tree_spec. Qed.

(** The statement above at the sample, refreshed with a listing that has
    [tank/a] before [tank/b]. *)
Lemma refresh_tree_expansion_witness :
  exists self',
    refresh_tree strftime_unused (fun _ => CommandOutput (Some listing_after))
      sample_gui = Ok self' /\
    gui_store self' = gui_store sample_gui.
Proof.
  eexists. split; [vm_compute; reflexivity|].
  refine (proj1 (proj2 (proj2
            (refresh_tree_expansion strftime_unused
               (fun _ => CommandOutput (Some listing_after)) sample_gui _ _)))).
  vm_compute. reflexivity.
Defined.



(** ** The saved options *)

Lemma column_widths_lookup cols acc c :
  (Forall (fun tw => tw.1 <> c) cols -> column_widths cols acc !! c = acc !! c) /\
  (forall j w, cols !! j = Some (c, w) ->
     (forall j' tw, (j < j')%nat -> cols !! j' = Some tw -> tw.1 <> c) ->
     column_widths cols acc !! c = Some w).
Proof.
  revert acc. induction cols as [|[t w'] cols IH]; intros acc.
  - split; [done|]. intros j w Hj. by destruct j.
  - cbn [column_widths]. destruct (IH (<[t := w']> acc)) as [IHout IHin]. split.
    + intros [Hne Hrest]%Forall_cons. rewrite IHout by exact Hrest.
      by apply lookup_insert_ne.
    + intros [|j] w Hj Hlast.
      * injection Hj as -> ->. rewrite IHout; [by rewrite lookup_insert_eq|].
        apply Forall_forall. intros tw Htw.
        apply list_elem_of_lookup in Htw as [j' Hj'].
        apply (Hlast (S j') tw); [lia|exact Hj'].
      * apply (IHin j w Hj). intros j' tw Hlt. apply (Hlast (S j')). lia.
Qed.

(** X15: the options [close] saves give the window its size back and
    every column the width it had (for a title shown more than once, the
    width of its last column), except that a width of zero is not set;
    without saved options the size is 800 by 600 and no width is set. *)
Theorem close_restores_view size cols props i col j w :
  view_columns (close size cols) 0 props !! i = Some col ->
  cols !! j = Some (col_title col, w) ->
  (forall j' tw, (j < j')%nat -> cols !! j' = Some tw -> tw.1 <> col_title col) ->
  default_size (close size cols) = size /\
  col_fixed_width col = (if bool_decide (w = 0) then None else Some w) /\
  default_size (load_opts None) = (800, 600) /\
  forall c, saved_width (load_opts None) c = None.
Proof.
  intros Hcol Hj Hlast. split; [by destruct size|]. split; [|by split].
  apply view_columns_lookup in Hcol as (prop & _ & <- & _ & _ & ->).
  change (saved_width (close size cols) (col_title col))
    with (match column_widths cols ∅ !! col_title col with
          | Some w => if bool_decide (w = 0) then None else Some w
          | None => None
          end).
  by rewrite (proj2 (column_widths_lookup cols ∅ (col_title col)) j w Hj Hlast).
Qed.

(** The statement above for a window of 1024 by 768 with a [name] column
    of 300 pixels and a [used] column of width zero. *)
Lemma close_restores_view_witness :
  let col := {| col_title := "used"; col_text := 1; col_right := true;
                col_sort_column_id := 2; col_fixed_width := None |} in
  default_size (close (1024, 768) [("name", 300); ("used", 0)]) = (1024, 768) /\
  col_fixed_width col = (if bool_decide (0 = 0) then None else Some 0) /\
  default_size (load_opts None) = (800, 600) /\
  forall c, saved_width (load_opts None) c = None.
Proof.
  cbv zeta.
  apply (close_restores_view (1024, 768) [("name", 300); ("used", 0)]
           ["name"; "used"] 1%nat _ 1%nat 0).
  - vm_compute. reflexivity.
  - reflexivity.
  - intros [|[|[|j']]] tw Hlt Htw; try lia; discriminate.
Defined.

(** ** [Gui.__init__] *)

(** X16: when the listing has been read and the store built,
    [Gui.__init__] goes on exactly when there is a filesystem record: the
    window title is the first cell of the first top-level row, and a
    listing without filesystem records, such as one of volumes only,
    ends in [IndexError]. *)
Theorem Gui_init_needs_filesystem
    strftime check_output filesystem props text records store :
  check_output (zfs_command filesystem props) = CommandOutput (Some text) ->
  text <> "" ->
  parse_zfs_list_output (str_split newline text) (props ++ ["type"]) = Ok records ->
  fill_treestore strftime records props = Ok store ->
  props <> [] ->
  Gui_init strftime check_output filesystem props =
  if decide (filter is_filesystem records = []) then Raise IndexError
  else Ok {| gui_filesystem := filesystem; gui_props := props; gui_store := store;
             gui_tview := {| model := store; expanded := [] |} |}.
Proof.
  intros Hrun Htext Hparse Hfill Hprops. unfold Gui_init.
  rewrite (build_treestore_parsed _ _ _ _ _ _ Hrun Htext Hparse), Hfill.
  cbn [bind]. rewrite fill_treestore_unfold in Hfill.
  destruct (add_records _ _ _ _) as [st| |] eqn:Hst; try discriminate.
  cbn [bind] in Hfill. injection Hfill as <-.
  apply add_records_forest in Hst as (cs & news & -> & _ & Hroots).
  cbn [state_of fst roots]. change (adopt [] cs) with (@nil TreeNode). cbn [app].
  rewrite <- ownership_filesystems.
  destruct Hroots as [|n g news owners [Hrow _] _].
  - by rewrite decide_True.
  - rewrite decide_False by discriminate.
    apply stored_row_length in Hrow. unfold row_first.
    destruct (node_row n) as [|v row]; [|reflexivity].
    destruct props as [|p props]; [done|]. cbn [store_columns] in Hrow.
    by destruct (has_sort_column p).
Qed.

(** The statement above at a listing of one volume. *)
Lemma Gui_init_needs_filesystem_witness :
  Gui_init strftime_unused
    (fun _ => CommandOutput (Some (unlines [tsv ["tank/vol"; "2048"; "volume"]])))
    (Some "tank/vol") ["name"; "used"]
  = if decide (filter is_filesystem [record "tank/vol" "2048" "volume"] = [])
    then Raise IndexError
    else Ok {| gui_filesystem := Some "tank/vol"; gui_props := ["name"; "used"];
               gui_store := {| columns := [ColStr; ColStr; ColFloat]; roots := [] |};
               gui_tview := {| model := {| columns := [ColStr; ColStr; ColFloat];
                                           roots := [] |};
                               expanded := [] |} |}.
Proof.
  apply (Gui_init_needs_filesystem strftime_unused _ (Some "tank/vol")
           ["name"; "used"] (unlines [tsv ["tank/vol"; "2048"; "volume"]])).
  - reflexivity.
  - vm_compute. discriminate.
  - vm_compute. reflexivity.
  - vm_compute. reflexivity.
  - discriminate.
Defined.
